(** * Bootstrap confidence intervals for event-related transients

    A shallow embedding of [bootstrap_ci.py] (class [BootCI]) and the
    verification of its documented behaviour.

    Numbers.  The program computes on IEEE doubles.  Every finite double is
    a rational, so the data table, the significance level and the bootstrap
    means are modelled in [Q] with exact arithmetic; comparisons, [ceil] and
    [floor] are then computable.  [np.sqrt] leaves the rationals, so the
    narrowness correction and the bounds it produces live in [R].  Rounding,
    infinities and NaN are outside the model (in particular the mean of zero
    rows, NaN in pandas, is [0 / 0 = 0] here, and is never relied upon).

    Randomness.  [DataFrame.sample] reads the generator: the generator is an
    explicit tape of draws with a cursor, threaded through the state.

    Sharing.  [self.boot_samples] holds a reference to an array object; the
    heap of array objects is explicit, so that [boot_arr = self.boot_samples]
    aliases and [boot_arr.sort(axis=0)] mutates the stored array. *)

From Stdlib Require Import ZArith QArith Qround Qreals Reals Lra Lia List Bool.
From Stdlib Require Import Sorting.Sorted Sorting.Permutation.
From Stdlib Require Lqa.
From stdpp Require Import base gmap strings.
Import ListNotations.

(** ** Python values and exceptions *)

Module Py.

Inductive exn : Type :=
| IndexError
| ZeroDivisionError
| TypeError
| AttributeError.

Inductive result (A : Type) : Type :=
| Ok (a : A)
| Raise (e : exn).
Arguments Ok {A} a.
Arguments Raise {A} e.

(** [a[k]] on a sequence of length [n]: positions [0 .. n-1], negative
    [k] counts from the end, anything else is an [IndexError]. *)
Definition getitem {A : Type} (a : list A) (k : Z) : result A :=
  let n := Z.of_nat (length a) in
  let i := if (k <? 0)%Z then (k + n)%Z else k in
  if ((0 <=? i)%Z && (i <? n)%Z)%bool
  then match nth_error a (Z.to_nat i) with
       | Some x => Ok x
       | None => Raise IndexError
       end
  else Raise IndexError.

(** [range(n)]: empty when [n <= 0]. *)
Definition range (n : Z) : list nat := seq 0 (Z.to_nat n).

(** [n / d] on Python ints (true division). *)
Definition truediv (n d : Z) : result R :=
  if (d =? 0)%Z then Raise ZeroDivisionError else Ok (IZR n / IZR d)%R.

(** [itertools.groupby(xs, key)]: the maximal blocks of consecutive
    elements with equal key, each with its key, in order. *)
Fixpoint groupby {A : Type} (key : A -> bool) (xs : list A) : list (bool * list A) :=
  match xs with
  | [] => []
  | x :: xs' =>
      match groupby key xs' with
      | (k, g) :: rest =>
          if Bool.eqb (key x) k then (k, x :: g) :: rest
          else (key x, [x]) :: (k, g) :: rest
      | [] => [(key x, [x])]
      end
  end.

End Py.
Export Py.

(** ** numpy arrays *)

Module Np.

(** A two-dimensional array of doubles is the list of its rows;
    [np.asarray([])] is the empty list. *)
Abbreviation ndarray := (list (list Q)).

Definition Qleb (x y : Q) : bool := Qle_bool x y.

Fixpoint insert_sorted (x : Q) (l : list Q) : list Q :=
  match l with
  | [] => [x]
  | y :: l' => if Qleb x y then x :: y :: l' else y :: insert_sorted x l'
  end.

(** Sorting one column.  numpy's algorithm is not modelled; on numbers its
    result is determined: the ascending rearrangement. *)
Fixpoint sort (l : list Q) : list Q :=
  match l with
  | [] => []
  | x :: l' => insert_sorted x (sort l')
  end.

Definition ncols (a : ndarray) : nat :=
  match a with
  | [] => 0
  | r :: _ => length r
  end.

Definition column (j : nat) (a : ndarray) : list Q :=
  map (fun r => nth j r 0%Q) a.

Definition of_columns (nrows : nat) (cs : list (list Q)) : ndarray :=
  map (fun i => map (fun c => nth i c 0%Q) cs) (seq 0 nrows).

(** The value of the array after [a.sort(axis=0)]: every column sorted
    on its own. *)
Definition sort_axis0 (a : ndarray) : ndarray :=
  of_columns (length a) (map (fun j => sort (column j a)) (seq 0 (ncols a))).

(** Arithmetic on rows of reals: [c * v], [-v], [v / c], and the
    elementwise [u - v] and [u + v]. *)
Definition scale (c : R) (v : list R) : list R := map (Rmult c) v.
Definition neg (v : list R) : list R := map Ropp v.
Definition div_scalar (v : list R) (c : R) : list R := map (fun x => (x / c)%R) v.

Fixpoint zip_with (f : R -> R -> R) (u v : list R) : list R :=
  match u, v with
  | x :: u', y :: v' => f x y :: zip_with f u' v'
  | _, _ => []
  end.

Definition sub := zip_with Rminus.
Definition add := zip_with Rplus.

(** A row of doubles entering real arithmetic. *)
Definition to_real (v : list Q) : list R := map Q2R v.

(** [x > threshold] *)
Definition gtb (x threshold : R) : bool :=
  if Rlt_dec threshold x then true else false.

End Np.
Export Np.

(** ** The random generator and pandas frames *)

Module Pd.

Record RandomState : Type := mkRandomState
  { tape : nat -> nat;
    cursor : nat }.

(** One uniform draw from [0 .. a-1]. *)
Definition randint (a : nat) (rs : RandomState) : nat * RandomState :=
  (tape rs (cursor rs) mod a,
   {| tape := tape rs; cursor := S (cursor rs) |}).

(** [size] draws with replacement. *)
Fixpoint choice (a size : nat) (rs : RandomState) : list nat * RandomState :=
  match size with
  | O => ([], rs)
  | S size' =>
      let '(i, rs1) := randint a rs in
      let '(rest, rs2) := choice a size' rs1 in
      (i :: rest, rs2)
  end.

(** An [n x p] table: [columns] is [p], [values] the [n] rows. *)
Record DataFrame : Type := mkDataFrame
  { columns : nat;
    values : list (list Q) }.

Definition shape0 (df : DataFrame) : nat := length (values df).

(** [df.sample(n, replace=True)] *)
Definition sample (df : DataFrame) (n : nat) (rs : RandomState)
  : DataFrame * RandomState :=
  let '(idx, rs') := choice (shape0 df) n rs in
  ({| columns := columns df;
      values := map (fun i => nth i (values df) []) idx |}, rs').

Definition Qsum (l : list Q) : Q := fold_right Qplus 0%Q l.

(** [df.mean().values]: the mean of every column. *)
Definition mean (df : DataFrame) : list Q :=
  map (fun j => (Qsum (column j (values df))
                 / inject_Z (Z.of_nat (shape0 df)))%Q)
      (seq 0 (columns df)).

End Pd.
Export Pd.

(** ** The object and the machine state *)

Record BootCI : Type := mkBootCI
  { data : DataFrame;
    n_samples : Z;
    boot_samples : option nat;          (* None, or a reference to an array *)
    ci_lower : option (list R);
    ci_upper : option (list R);
    sig_events : gmap string (list (list nat)) }.

Record Mem : Type := mkMem
  { self : BootCI;
    heap : gmap nat ndarray;
    random : RandomState }.

(** Computations that read and write the state and may raise; the state
    reached when an exception is raised is kept. *)
Definition M (A : Type) : Type := Mem -> result A * Mem.

Definition ret {A : Type} (a : A) : M A := fun m => (Ok a, m).

Definition bind {A B : Type} (c : M A) (k : A -> M B) : M B :=
  fun m =>
    match c m with
    | (Ok a, m') => k a m'
    | (Raise e, m') => (Raise e, m')
    end.

Notation "'let*' x ':=' c 'in' k" := (bind c (fun x => k))
  (at level 10, x name, c at level 100, k at level 200).
Notation "c ';;;' k" := (bind c (fun _ => k))
  (at level 100, k at level 200, right associativity).

Definition raise {A : Type} (e : exn) : M A := fun m => (Raise e, m).

Definition lift {A : Type} (r : result A) : M A := fun m => (r, m).

Definition get_self : M BootCI := fun m => (Ok (self m), m).

Definition set_self (f : BootCI -> BootCI) : M unit :=
  fun m => (Ok tt, {| self := f (self m); heap := heap m; random := random m |}).

Definition with_random {A : Type} (f : RandomState -> A * RandomState) : M A :=
  fun m => let '(a, rs) := f (random m) in
           (Ok a, {| self := self m; heap := heap m; random := rs |}).

(** [np.asarray(rows)]: a new array object. *)
Definition asarray (rows : ndarray) : M nat :=
  fun m => let l := fresh (dom (heap m)) in
           (Ok l, {| self := self m; heap := <[l := rows]> (heap m); random := random m |}).

(** Reading the array behind a reference. *)
Definition deref (r : option nat) : M ndarray :=
  fun m => match r with
           | Some l => match heap m !! l with
                       | Some a => (Ok a, m)
                       | None => (Raise AttributeError, m)
                       end
           | None => (Raise AttributeError, m)
           end.

(** [r.sort(axis=0)]: in place. *)
Definition ndarray_sort (r : option nat) : M unit :=
  fun m => match r with
           | Some l => match heap m !! l with
                       | Some a =>
                           (Ok tt, {| self := self m;
                                      heap := <[l := sort_axis0 a]> (heap m);
                                      random := random m |})
                       | None => (Raise AttributeError, m)
                       end
           | None => (Raise AttributeError, m)
           end.

(** [r[k]]: row [k] of the array behind [r]. *)
Definition ndarray_getitem (r : option nat) (k : Z) : M (list Q) :=
  let* a := deref r in lift (getitem a k).

Definition set_boot_samples (v : option nat) (o : BootCI) : BootCI :=
  {| data := data o; n_samples := n_samples o; boot_samples := v;
     ci_lower := ci_lower o; ci_upper := ci_upper o; sig_events := sig_events o |}.

Definition set_ci_lower (v : option (list R)) (o : BootCI) : BootCI :=
  {| data := data o; n_samples := n_samples o; boot_samples := boot_samples o;
     ci_lower := v; ci_upper := ci_upper o; sig_events := sig_events o |}.

Definition set_ci_upper (v : option (list R)) (o : BootCI) : BootCI :=
  {| data := data o; n_samples := n_samples o; boot_samples := boot_samples o;
     ci_lower := ci_lower o; ci_upper := v; sig_events := sig_events o |}.

Definition set_sig_events (v : gmap string (list (list nat))) (o : BootCI) : BootCI :=
  {| data := data o; n_samples := n_samples o; boot_samples := boot_samples o;
     ci_lower := ci_lower o; ci_upper := ci_upper o; sig_events := v |}.

(** ** The methods of [BootCI] *)

(** The loop of [_bootstrap_resample]: one resampled mean row appended per
    iteration. *)
Fixpoint resample_loop (iters : nat) (df : DataFrame) (n : nat)
    (bootstraps : ndarray) : M ndarray :=
  match iters with
  | O => ret bootstraps
  | S iters' =>
      let* s := with_random (sample df n) in
      resample_loop iters' df n (bootstraps ++ [mean s])
  end.

Definition _bootstrap_resample (n_boots : Z) : M unit :=
  let* me := get_self in
  let n_samples := shape0 (data me) in
  let* bootstraps := resample_loop (length (range n_boots)) (data me) n_samples [] in
  let* arr := asarray bootstraps in
  set_self (set_boot_samples (Some arr)).

Definition lower_CI_idx (n_boots : Z) (sig : Q) : Z :=
  Qceiling (inject_Z n_boots * (sig / 2))%Q.

Definition upper_CI_idx (n_boots : Z) (sig : Q) : Z :=
  Qfloor (inject_Z n_boots * (1 - sig / 2))%Q.

(** [np.sqrt(n_samples / (n_samples - 1))] *)
Definition ci_factor (n_samples : Z) : M R :=
  let* q := lift (truediv n_samples (n_samples - 1)) in
  ret (sqrt q).

(** The difference between the expanded and the original interval. *)
Definition ci_change (factor : R) (lower upper : list R) : list R :=
  sub (scale factor (sub upper lower)) (sub upper lower).

Definition bootstrap_CI (n_boots : Z) (sig : Q) : M unit :=
  _bootstrap_resample n_boots ;;;
  let* me := get_self in
  let boot_arr := boot_samples me in
  ndarray_sort boot_arr ;;;
  let* lower := ndarray_getitem boot_arr (lower_CI_idx n_boots sig) in
  let* upper := ndarray_getitem boot_arr (upper_CI_idx n_boots sig - 1) in
  let* me := get_self in
  let* factor := ci_factor (n_samples me) in
  let change := ci_change factor (to_real lower) (to_real upper) in
  set_self (set_ci_lower (Some (sub (to_real lower) (div_scalar change 2)))) ;;;
  set_self (set_ci_upper (Some (add (to_real upper) (div_scalar change 2)))).

(** [BootCI(data, n_boots)]; [n_boots = None] is [None] here, and a falsy
    [n_boots] (None or 0) skips the resampling. *)
Definition __init__ (df : DataFrame) (n_boots : option Z) : M unit :=
  set_self (fun _ =>
    {| data := df; n_samples := Z.of_nat (shape0 df); boot_samples := None;
       ci_lower := None; ci_upper := None; sig_events := ∅ |}) ;;;
  match n_boots with
  | Some b => if (b =? 0)%Z then ret tt else _bootstrap_resample b
  | None => ret tt
  end.

(** [self.sig_events[ci] = runs] *)
Definition set_event (ci : string) (runs : list (list nat)) : M unit :=
  set_self (fun o => set_sig_events (<[ci := runs]> (sig_events o)) o).

(** [lambda x: arr[x] > threshold] *)
Definition exceeds (arr : list R) (threshold : R) (x : nat) : bool :=
  gtb (nth x arr 0%R) threshold.

(** The runs kept for one bound: [groupby] over [range(len(arr))] with key
    [arr[x] > threshold], then the comprehension over
    [zip(groups, uniquekeys)]. *)
Definition sig_runs (arr : list R) (threshold : R) (num_consec : Z) : list (list nat) :=
  let gb := groupby (exceeds arr threshold) (range (Z.of_nat (length arr))) in
  let groups := map snd gb in
  let uniquekeys := map fst gb in
  map fst (List.filter (fun gk : list nat * bool =>
                     snd gk && (num_consec <? Z.of_nat (length (fst gk)))%Z)
                  (combine groups uniquekeys)).

(** [len(arr)] and [-arr] fail with a [TypeError] on [None]. *)
Definition the_array (a : option (list R)) : M (list R) :=
  match a with
  | Some v => ret v
  | None => raise TypeError
  end.

Definition sig_events_for (ci : string) (num_consec : Z) (threshold : R) : M unit :=
  let* me := get_self in
  let* arr := (if String.eqb ci "upper"
               then let* u := the_array (ci_upper me) in ret (neg u)
               else the_array (ci_lower me)) in
  set_event ci (sig_runs arr threshold num_consec).

Definition get_sig_events (num_consec : Z) (threshold : R) : M unit :=
  sig_events_for "lower" num_consec threshold ;;;
  sig_events_for "upper" num_consec threshold.

(** The array currently stored in [self.boot_samples]. *)
Definition stored_array (m : Mem) : option ndarray :=
  match boot_samples (self m) with
  | Some l => heap m !! l
  | None => None
  end.

(** The object invariant set up by the constructor: [n_samples] is the
    number of rows of the table. *)
Definition consistent (m : Mem) : Prop :=
  n_samples (self m) = Z.of_nat (shape0 (data (self m))).

(** Every row of the array has [p] entries. *)
Definition rect (p : nat) (a : ndarray) : Prop :=
  Forall (fun r => length r = p) a.

(** [bootstrap_CI] up to the two raw percentile rows (the resampling, the
    in-place sort and the two cut-offs), returning the rows. *)
Definition raw_bounds (n_boots : Z) (sig : Q) : M (list Q * list Q) :=
  _bootstrap_resample n_boots ;;;
  let* me := get_self in
  let boot_arr := boot_samples me in
  ndarray_sort boot_arr ;;;
  let* lower := ndarray_getitem boot_arr (lower_CI_idx n_boots sig) in
  let* upper := ndarray_getitem boot_arr (upper_CI_idx n_boots sig - 1) in
  ret (lower, upper).

(** The rest of [bootstrap_CI]: the adjustment for narrowness bias. *)
Definition adjust_narrowness (lower upper : list Q) : M unit :=
  let* me := get_self in
  let* factor := ci_factor (n_samples me) in
  let change := ci_change factor (to_real lower) (to_real upper) in
  set_self (set_ci_lower (Some (sub (to_real lower) (div_scalar change 2)))) ;;;
  set_self (set_ci_upper (Some (add (to_real upper) (div_scalar change 2)))).

(** The state in which [bootstrap_CI] takes its cut-offs: resampled, the
    stored array sorted in place. *)
Definition resampled_sorted (n_boots : Z) (m : Mem) : Mem :=
  snd ((_bootstrap_resample n_boots ;;;
        let* me := get_self in ndarray_sort (boot_samples me)) m).

(** Row [i] of an array once its columns are sorted: entry [i] of every
    sorted column. *)
Definition sorted_row (a : ndarray) (i : nat) : list Q :=
  map (fun j => nth i (sort (column j a)) 0%Q) (seq 0 (ncols a)).



(** ** Runs *)

(** [g] is a maximal run of value [b]: a non-empty block of consecutive
    indices of [0 .. p-1] on which [key] is [b], which cannot be extended
    on either side. *)
Definition maximal_run (key : nat -> bool) (p : nat) (b : bool) (g : list nat) : Prop :=
  exists s len,
    g = seq s len /\ 0 < len /\ s + len <= p
    /\ (forall i, s <= i < s + len -> key i = b)
    /\ (s = 0 \/ key (s - 1) <> b)
    /\ (s + len = p \/ key (s + len) <> b).

(** [runs] cuts [0 .. p-1] into its maximal runs, in order. *)
Definition partitions_into_runs (key : nat -> bool) (p : nat)
    (runs : list (bool * list nat)) : Prop :=
  concat (map snd runs) = seq 0 p
  /\ forall b g, In (b, g) runs <-> maximal_run key p b g.

(** [kept] holds maximal runs of value [true] only, and of the maximal
    runs exactly those of value [true] longer than [num_consec]. *)
Definition retains (key : nat -> bool) (p : nat) (num_consec : Z)
    (kept : list (list nat)) : Prop :=
  (forall g, In g kept -> maximal_run key p true g)
  /\ forall b g, maximal_run key p b g ->
       (In g kept <-> b = true /\ (num_consec < Z.of_nat (length g))%Z).

(** ** Concrete objects *)

(** The attributes before the constructor has run. *)
Definition no_object : BootCI :=
  {| data := {| columns := 0; values := [] |}; n_samples := 0;
     boot_samples := None; ci_lower := None; ci_upper := None;
     sig_events := ∅ |}.

(** [BootCI(df, n_boots)] in an empty heap, the generator reading [t]. *)
Definition construct (df : DataFrame) (n_boots : option Z) (t : nat -> nat) : Mem :=
  snd (__init__ df n_boots
         {| self := no_object; heap := ∅;
            random := {| tape := t; cursor := 0 |} |}).

Definition example_tape (i : nat) : nat := i * i / 3 + i.

(** Four subjects, two time points. *)
Definition example_table : DataFrame :=
  {| columns := 2; values := [[1; 5]; [3; 2]; [7; 0]; [4; 4]]%Q |}.



Definition empty_table : DataFrame :=
  {| columns := 2; values := [] |}.

Definition example_mem : Mem := construct example_table None example_tape.
Definition empty_mem : Mem := construct empty_table None example_tape.

(** [g_bool and len(g) > num_consec] on a labelled run. *)
Definition long_true (num_consec : Z) (bg : bool * list nat) : bool :=
  fst bg && (num_consec <? Z.of_nat (length (snd bg)))%Z.

(** An object whose bounds are set by hand, for the event detector. *)
Definition bounds_mem (lower upper : list R) : Mem :=
  {| self := {| data := example_table; n_samples := 4; boot_samples := None;
                ci_lower := Some lower; ci_upper := Some upper;
                sig_events := ∅ |};
     heap := ∅;
     random := {| tape := example_tape; cursor := 0 |} |}.

(** The state with the registry replaced. *)
Definition with_events (ev : gmap string (list (list nat))) (m : Mem) : Mem :=
  {| self := set_sig_events ev (self m); heap := heap m; random := random m |}.

(** All indices reported under a key of the registry. *)
Definition reported (m : Mem) (ci : string) : list nat :=
  match sig_events (self m) !! ci with
  | Some runs => concat runs
  | None => []
  end.

(** Unfolding the plumbing of [M]. *)
Ltac run_monad :=
  unfold bind, ret, lift, raise, get_self, set_self, with_random; simpl.

(** * Sorting *)

Section Sorting.

Lemma Qleb_total x y : Qleb x y = false -> Qleb y x = true.
Proof.
  unfold Qleb. intros H. apply Qle_bool_iff.
  destruct (Qle_bool x y) eqn:E; [discriminate|].
  apply Qlt_le_weak, Qnot_le_lt. intros Hc.
  apply Qle_bool_iff in Hc. congruence.
Qed.

Lemma insert_sorted_perm x l : Permutation (insert_sorted x l) (x :: l).
Proof.
  induction l as [|y l IH]; simpl; [reflexivity|].
  destruct (Qleb x y); [reflexivity|].
  rewrite IH. apply perm_swap.
Qed.

Lemma sort_perm l : Permutation (sort l) l.
Proof.
  induction l as [|x l IH]; simpl; [constructor|].
  rewrite insert_sorted_perm. now constructor.
Qed.

Lemma sort_length l : length (sort l) = length l.
Proof. apply Permutation_length, sort_perm. Qed.

Lemma insert_sorted_sorted x l :
  Sorted Qle l -> Sorted Qle (insert_sorted x l).
Proof.
  induction l as [|y l IH]; simpl; intros Hs.
  - repeat constructor.
  - destruct (Qleb x y) eqn:E.
    + constructor; [assumption|]. constructor. now apply Qle_bool_iff.
    + apply Qleb_total, Qle_bool_iff in E.
      inversion Hs as [|? ? Hs' Hhd]; subst.
      constructor; [now apply IH|].
      destruct l as [|z l]; simpl.
      * now constructor.
      * destruct (Qleb x z); constructor; [assumption|].
        now inversion Hhd.
Qed.

Lemma sort_sorted l : Sorted Qle (sort l).
Proof.
  induction l as [|x l IH]; simpl; [constructor|].
  now apply insert_sorted_sorted.
Qed.

End Sorting.

(** * Arrays as lists of rows *)

Section Arrays.

Lemma column_length j a : length (column j a) = length a.
Proof. unfold column. apply length_map. Qed.

Lemma of_columns_length n cs : length (of_columns n cs) = n.
Proof. unfold of_columns. now rewrite length_map, length_seq. Qed.

Lemma of_columns_rect n cs : rect (length cs) (of_columns n cs).
Proof.
  unfold rect, of_columns. apply List.Forall_forall. intros r Hr.
  apply in_map_iff in Hr as (i & <- & _). apply length_map.
Qed.

Lemma of_columns_nth n cs i :
  i < n -> nth_error (of_columns n cs) i = Some (map (fun c => nth i c 0%Q) cs).
Proof.
  intros Hi. unfold of_columns.
  rewrite nth_error_map, nth_error_seq.
  destruct (Nat.ltb_spec i n); [reflexivity | lia].
Qed.

Lemma nth_map_in {A B : Type} (f : A -> B) (l : list A) i d d' :
  i < length l -> nth i (map f l) d = f (nth i l d').
Proof.
  revert i. induction l as [|x l IH]; simpl; intros i Hi; [lia|].
  destruct i; [reflexivity|]. apply IH. lia.
Qed.

Lemma column_of_columns n cs j :
  j < length cs -> length (nth j cs []) = n ->
  column j (of_columns n cs) = nth j cs [].
Proof.
  intros Hj Hlen. unfold column, of_columns. rewrite map_map.
  apply nth_ext with (d := 0%Q) (d' := 0%Q).
  - now rewrite length_map, length_seq.
  - intros i Hi. rewrite length_map, length_seq in Hi.
    rewrite (nth_map_in _ _ _ _ 0) by now rewrite length_seq.
    rewrite seq_nth by assumption. simpl.
    now rewrite (nth_map_in _ _ _ _ []).
Qed.

Lemma sort_axis0_length a : length (sort_axis0 a) = length a.
Proof. apply of_columns_length. Qed.

Lemma sort_axis0_rect a : rect (ncols a) (sort_axis0 a).
Proof.
  unfold sort_axis0.
  replace (ncols a) with
    (length (map (fun j => sort (column j a)) (seq 0 (ncols a)))) at 1
    by now rewrite length_map, length_seq.
  apply of_columns_rect.
Qed.

(** Column [j] of the sorted array is column [j] of the array, sorted. *)
Lemma sort_axis0_column a j :
  j < ncols a -> column j (sort_axis0 a) = sort (column j a).
Proof.
  intros Hj. unfold sort_axis0.
  set (cs := map (fun j => sort (column j a)) (seq 0 (ncols a))).
  assert (Hn : nth j cs [] = sort (column j a)).
  { unfold cs. rewrite (nth_map_in _ _ _ _ 0) by now rewrite length_seq.
    now rewrite seq_nth. }
  rewrite column_of_columns.
  - exact Hn.
  - unfold cs. now rewrite length_map, length_seq.
  - now rewrite Hn, sort_length, column_length.
Qed.

(** Row [i] of the sorted array holds, in column [j], entry [i] of the
    sorted column [j]. *)
Lemma sort_axis0_row a i :
  i < length a ->
  nth_error (sort_axis0 a) i =
    Some (map (fun j => nth i (sort (column j a)) 0%Q) (seq 0 (ncols a))).
Proof.
  intros Hi. unfold sort_axis0. rewrite of_columns_nth by assumption.
  now rewrite map_map.
Qed.

End Arrays.

(** * Indexing *)

Section Indexing.

Context {A : Type}.

Lemma getitem_position (a : list A) (k : Z) :
  (0 <= k < Z.of_nat (length a))%Z ->
  exists x, getitem a k = Ok x /\ nth_error a (Z.to_nat k) = Some x.
Proof.
  intros Hk. unfold getitem.
  destruct (Z.ltb_spec k 0); [lia|].
  destruct (Z.leb_spec 0 k); [|lia].
  destruct (Z.ltb_spec k (Z.of_nat (length a))); [|lia]. simpl.
  destruct (nth_error a (Z.to_nat k)) as [x|] eqn:E; [eauto|].
  apply nth_error_None in E. lia.
Qed.

Lemma getitem_out_of_range (a : list A) (k : Z) :
  (k < - Z.of_nat (length a) \/ Z.of_nat (length a) <= k)%Z ->
  getitem a k = Raise IndexError.
Proof.
  intros Hk. unfold getitem.
  destruct (Z.ltb_spec k 0).
  - destruct (Z.leb_spec 0 (k + Z.of_nat (length a))); [lia|reflexivity].
  - destruct (Z.leb_spec 0 k); [|lia].
    destruct (Z.ltb_spec k (Z.of_nat (length a))); [lia|reflexivity].
Qed.

Lemma getitem_from_end (a : list A) (k : Z) :
  (- Z.of_nat (length a) <= k < 0)%Z ->
  exists x, getitem a k = Ok x /\
            nth_error a (Z.to_nat (k + Z.of_nat (length a))) = Some x.
Proof.
  intros Hk. unfold getitem.
  destruct (Z.ltb_spec k 0); [|lia].
  destruct (Z.leb_spec 0 (k + Z.of_nat (length a))); [|lia].
  destruct (Z.ltb_spec (k + Z.of_nat (length a)) (Z.of_nat (length a))); [|lia].
  simpl.
  destruct (nth_error a (Z.to_nat (k + Z.of_nat (length a)))) as [x|] eqn:E;
    [eauto|].
  apply nth_error_None in E. lia.
Qed.

(** [a[k]] raises nothing but [IndexError], and exactly when [k] is not
    in [-len(a) .. len(a)-1]. *)
Lemma getitem_raise_iff (a : list A) (k : Z) (e : exn) :
  getitem a k = Raise e <->
  e = IndexError /\
  (k < - Z.of_nat (length a) \/ Z.of_nat (length a) <= k)%Z.
Proof.
  split.
  - intros H.
    destruct (Z_lt_le_dec k (- Z.of_nat (length a))) as [Hlo|Hlo].
    { rewrite getitem_out_of_range in H by lia. inversion H. split; [easy|lia]. }
    destruct (Z_lt_le_dec k (Z.of_nat (length a))) as [Hhi|Hhi].
    2:{ rewrite getitem_out_of_range in H by lia. inversion H. split; [easy|lia]. }
    destruct (Z_lt_le_dec k 0).
    + destruct (getitem_from_end a k) as (x & Hx & _); [lia|]. congruence.
    + destruct (getitem_position a k) as (x & Hx & _); [lia|]. congruence.
  - intros [-> Hk]. now apply getitem_out_of_range.
Qed.

End Indexing.

(** * The percentile positions *)

Section Positions.

Lemma Qfloor_unique (q : Q) (z : Z) :
  (inject_Z z <= q)%Q -> (q < inject_Z (z + 1))%Q -> Qfloor q = z.
Proof.
  intros Hlo Hhi.
  pose proof (Qfloor_le q) as H1. pose proof (Qlt_floor q) as H2.
  assert (z < Qfloor q + 1)%Z.
  { rewrite Zlt_Qlt. eapply Qle_lt_trans; eassumption. }
  assert (Qfloor q < z + 1)%Z.
  { rewrite Zlt_Qlt. eapply Qle_lt_trans; eassumption. }
  lia.
Qed.

Lemma Qfloor_shift (z : Z) (q : Q) :
  Qfloor (inject_Z z + q) = (z + Qfloor q)%Z.
Proof.
  apply Qfloor_unique.
  - rewrite inject_Z_plus. apply Qplus_le_r, Qfloor_le.
  - replace (z + Qfloor q + 1)%Z with (z + (Qfloor q + 1))%Z by lia.
    rewrite inject_Z_plus. apply Qplus_lt_r, Qlt_floor.
Qed.

(** In exact arithmetic the two cut-offs mirror each other. *)
Lemma upper_CI_idx_mirror (n_boots : Z) (sig : Q) :
  upper_CI_idx n_boots sig = (n_boots - lower_CI_idx n_boots sig)%Z.
Proof.
  unfold upper_CI_idx, lower_CI_idx, Qceiling.
  rewrite (Qfloor_comp _ (inject_Z n_boots + - (inject_Z n_boots * (sig / 2)))%Q).
  - rewrite Qfloor_shift. lia.
  - field.
Qed.

Lemma lower_CI_idx_pos (n_boots : Z) (sig : Q) :
  (1 <= n_boots)%Z -> (0 < sig)%Q -> (1 <= lower_CI_idx n_boots sig)%Z.
Proof.
  intros HB Hs. unfold lower_CI_idx.
  set (x := (inject_Z n_boots * (sig / 2))%Q).
  assert (Hx : (0 < x)%Q).
  { unfold x. apply Qmult_lt_0_compat.
    - replace 0%Q with (inject_Z 0) by reflexivity. rewrite <- Zlt_Qlt. lia.
    - apply Qlt_shift_div_l; [reflexivity|]. now rewrite Qmult_0_l. }
  pose proof (Qle_ceiling x) as Hc.
  assert (0 < Qceiling x)%Z; [|lia].
  rewrite Zlt_Qlt. eapply Qlt_le_trans; eassumption.
Qed.

End Positions.

(** * Running the methods *)

Section Resampling.

Lemma mean_length df : length (mean df) = columns df.
Proof. unfold mean. now rewrite length_map, length_seq. Qed.

Lemma sample_columns df n rs : columns (fst (sample df n rs)) = columns df.
Proof. unfold sample. now destruct (choice (shape0 df) n rs). Qed.

(** The loop never raises; it touches the generator only and appends
    [iters] rows of [p] entries. *)
Lemma resample_loop_run iters df n acc m :
  exists rows rs,
    resample_loop iters df n acc m =
      (Ok (acc ++ rows), {| self := self m; heap := heap m; random := rs |})
    /\ length rows = iters
    /\ rect (columns df) rows.
Proof.
  revert acc m. induction iters as [|k IH]; intros acc m.
  - exists [], (random m). simpl. unfold ret. rewrite app_nil_r.
    destruct m; repeat split. constructor.
  - simpl. unfold bind at 1, with_random.
    destruct (sample df n (random m)) as [s rs1] eqn:Es.
    edestruct IH as (rows & rs & Hrun & Hlen & Hrect).
    rewrite Hrun. exists (mean s :: rows), rs. simpl.
    rewrite <- app_assoc. repeat split; auto.
    constructor; [|exact Hrect].
    rewrite mean_length.
    replace s with (fst (sample df n (random m))) by now rewrite Es.
    apply sample_columns.
Qed.

(** [_bootstrap_resample] never raises: it stores a reference to a new
    array of [max n_boots 0] rows of [p] entries and leaves the other
    attributes alone. *)
Lemma bootstrap_resample_run n_boots m :
  exists rows rs,
    _bootstrap_resample n_boots m =
      (Ok tt, {| self := set_boot_samples (Some (fresh (dom (heap m)))) (self m);
                 heap := <[fresh (dom (heap m)) := rows]> (heap m);
                 random := rs |})
    /\ length rows = Z.to_nat n_boots
    /\ rect (columns (data (self m))) rows.
Proof.
  unfold _bootstrap_resample. unfold bind at 1, get_self.
  destruct (resample_loop_run (length (range n_boots)) (data (self m))
              (shape0 (data (self m))) [] m) as (rows & rs & Hrun & Hlen & Hrect).
  unfold bind at 1. rewrite Hrun. simpl.
  exists rows, rs. split; [reflexivity|]. split; [|exact Hrect].
  rewrite Hlen. unfold range. apply length_seq.
Qed.

Lemma rect_ncols p a : rect p a -> a <> [] -> ncols a = p.
Proof. intros Hr Ha. destruct a as [|r a]; [easy|]. now inversion Hr. Qed.

End Resampling.

Section IntervalEstimator.

Lemma stored_array_resampled n_boots m :
  exists fresh,
    stored_array (snd (_bootstrap_resample n_boots m)) = Some fresh
    /\ length fresh = Z.to_nat n_boots
    /\ rect (columns (data (self m))) fresh
    /\ stored_array (resampled_sorted n_boots m) = Some (sort_axis0 fresh)
    /\ data (self (resampled_sorted n_boots m)) = data (self m)
    /\ n_samples (self (resampled_sorted n_boots m)) = n_samples (self m)
    /\ forall sig,
        raw_bounds n_boots sig m =
          match getitem (sort_axis0 fresh) (lower_CI_idx n_boots sig) with
          | Raise e => (Raise e, resampled_sorted n_boots m)
          | Ok lower =>
              match getitem (sort_axis0 fresh) (upper_CI_idx n_boots sig - 1) with
              | Raise e => (Raise e, resampled_sorted n_boots m)
              | Ok upper => (Ok (lower, upper), resampled_sorted n_boots m)
              end
          end.
Proof.
  destruct (bootstrap_resample_run n_boots m) as (rows & rs & Hrun & Hlen & Hrect).
  exists rows.
  assert (Hsorted : resampled_sorted n_boots m =
            {| self := set_boot_samples (Some (fresh (dom (heap m)))) (self m);
               heap := <[fresh (dom (heap m)) := sort_axis0 rows]>
                         (<[fresh (dom (heap m)) := rows]> (heap m));
               random := rs |}).
  { unfold resampled_sorted, bind. rewrite Hrun. unfold get_self, ndarray_sort.
    simpl. now rewrite lookup_insert_eq. }
  rewrite Hsorted, Hrun. unfold stored_array. simpl.
  rewrite !lookup_insert_eq. repeat split; auto.
  intros sig. unfold raw_bounds, bind. rewrite Hrun.
  unfold get_self, ndarray_sort, ndarray_getitem, bind, deref, lift, ret. simpl.
  rewrite !lookup_insert_eq. simpl. rewrite !lookup_insert_eq.
  destruct (getitem (sort_axis0 rows) (lower_CI_idx n_boots sig)); [|reflexivity].
  simpl. rewrite !lookup_insert_eq. simpl.
  destruct (getitem (sort_axis0 rows) (upper_CI_idx n_boots sig - 1)); reflexivity.
Qed.

Lemma bootstrap_CI_split n_boots sig m :
  bootstrap_CI n_boots sig m =
    match raw_bounds n_boots sig m with
    | (Ok (lower, upper), m1) => adjust_narrowness lower upper m1
    | (Raise e, m1) => (Raise e, m1)
    end.
Proof.
  unfold bootstrap_CI, raw_bounds, adjust_narrowness, bind, get_self, ret.
  destruct (_bootstrap_resample n_boots m) as [[[]|e] m1]; [|reflexivity].
  destruct (ndarray_sort (boot_samples (self m1)) m1) as [[[]|e] m2]; [|reflexivity].
  destruct (ndarray_getitem (boot_samples (self m1)) (lower_CI_idx n_boots sig) m2)
    as [[lower|e] m3]; [|reflexivity].
  destruct (ndarray_getitem (boot_samples (self m1)) (upper_CI_idx n_boots sig - 1) m3)
    as [[upper|e] m4]; reflexivity.
Qed.

(** The adjustment fails only on the division, and only when the table
    has exactly one row. *)
Lemma adjust_narrowness_run lower upper m :
  adjust_narrowness lower upper m =
    if (n_samples (self m) - 1 =? 0)%Z then (Raise ZeroDivisionError, m)
    else
      let factor := sqrt (IZR (n_samples (self m)) / IZR (n_samples (self m) - 1)) in
      let change := ci_change factor (to_real lower) (to_real upper) in
      (Ok tt,
       {| self := set_ci_upper (Some (add (to_real upper) (div_scalar change 2)))
                    (set_ci_lower (Some (sub (to_real lower) (div_scalar change 2)))
                       (self m));
          heap := heap m; random := random m |}).
Proof.
  unfold adjust_narrowness, ci_factor, truediv. run_monad.
  destruct (n_samples (self m) - 1 =? 0)%Z; reflexivity.
Qed.

End IntervalEstimator.

(** * Vectors of reals *)

Section Vectors.

Lemma zip_with_length f u v :
  length (zip_with f u v) = Nat.min (length u) (length v).
Proof.
  revert v. induction u as [|x u IH]; intros [|y v]; simpl; auto.
Qed.

Lemma zip_with_nth f u v j :
  j < length u -> j < length v ->
  nth j (zip_with f u v) 0%R = f (nth j u 0%R) (nth j v 0%R).
Proof.
  revert v j. induction u as [|x u IH]; intros [|y v] j Hu Hv; simpl in *; try lia.
  destruct j; [reflexivity|]. apply IH; lia.
Qed.

Lemma to_real_length v : length (to_real v) = length v.
Proof. apply length_map. Qed.

Lemma to_real_nth v j :
  j < length v -> nth j (to_real v) 0%R = Q2R (nth j v 0%Q).
Proof. intros Hj. unfold to_real. now apply nth_map_in. Qed.

Lemma ci_change_length f l u :
  length l = length u -> length (ci_change f l u) = length l.
Proof.
  intros H. unfold ci_change, sub, scale.
  rewrite !zip_with_length, length_map, !zip_with_length. lia.
Qed.

Lemma ci_change_nth f l u j :
  length l = length u -> j < length l ->
  nth j (ci_change f l u) 0%R =
    (f * (nth j u 0 - nth j l 0) - (nth j u 0 - nth j l 0))%R.
Proof.
  intros H Hj. unfold ci_change, sub, scale.
  rewrite zip_with_nth.
  - rewrite (nth_map_in _ _ _ _ 0%R) by (rewrite zip_with_length; lia).
    rewrite zip_with_nth by lia. reflexivity.
  - rewrite length_map, zip_with_length. lia.
  - rewrite zip_with_length. lia.
Qed.

Lemma div_scalar_length v c : length (div_scalar v c) = length v.
Proof. apply length_map. Qed.

Lemma div_scalar_nth v c j :
  j < length v -> nth j (div_scalar v c) 0%R = (nth j v 0 / c)%R.
Proof.
  intros Hj. unfold div_scalar.
  now rewrite (nth_map_in (fun x => (x / c)%R) v j 0%R 0%R).
Qed.


End Vectors.

Section PercentileBounds.

Variables (n_boots : Z) (sig : Q) (m : Mem).
Hypothesis sig_pos : (0 < sig)%Q.

(** For a positive significance level there are two cases only: both
    positions index the sorted array from the front, or the lower one is
    past its end. *)
Lemma raw_bounds_cases :
  exists fresh,
    stored_array (snd (_bootstrap_resample n_boots m)) = Some fresh
    /\ length fresh = Z.to_nat n_boots
    /\ rect (columns (data (self m))) fresh
    /\ ((1 <= lower_CI_idx n_boots sig < n_boots)%Z
        /\ (0 <= upper_CI_idx n_boots sig - 1 < n_boots - 1)%Z
        /\ ncols fresh = columns (data (self m))
        /\ raw_bounds n_boots sig m =
             (Ok (sorted_row fresh (Z.to_nat (lower_CI_idx n_boots sig)),
                 sorted_row fresh (Z.to_nat (upper_CI_idx n_boots sig - 1))),
              resampled_sorted n_boots m)
        \/
        ~ (0 <= lower_CI_idx n_boots sig < n_boots)%Z
        /\ raw_bounds n_boots sig m = (Raise IndexError, resampled_sorted n_boots m)).
Proof.
  destruct (stored_array_resampled n_boots m)
    as (fresh & Hst & Hlen & Hrect & _ & _ & _ & Hraw).
  exists fresh. repeat split; auto.
  specialize (Hraw sig).
  pose proof (upper_CI_idx_mirror n_boots sig) as Hup.
  pose proof (lower_CI_idx_pos n_boots sig) as Hpos.
  set (lo := lower_CI_idx n_boots sig) in *.
  set (up := upper_CI_idx n_boots sig) in *.
  assert (Hsl : length (sort_axis0 fresh) = Z.to_nat n_boots)
    by now rewrite sort_axis0_length.
  destruct (Z_lt_le_dec lo n_boots) as [Hlt|Hge].
  - destruct (Z_le_gt_dec n_boots 0) as [Hneg|Hposb].
    + right. split; [lia|]. rewrite Hraw.
      rewrite getitem_out_of_range; [reflexivity|]. rewrite Hsl. lia.
    + assert (1 <= lo)%Z by (apply Hpos; [lia|assumption]).
      left. split; [lia|]. split; [lia|].
      assert (Hne : fresh <> []).
      { intros ->. simpl in Hlen. lia. }
      split; [now apply rect_ncols|].
      rewrite Hraw.
      destruct (getitem_position (sort_axis0 fresh) lo) as (x & -> & Hx);
        [rewrite Hsl; lia|].
      destruct (getitem_position (sort_axis0 fresh) (up - 1)) as (y & -> & Hy);
        [rewrite Hsl; lia|].
      rewrite sort_axis0_row in Hx, Hy by lia.
      unfold sorted_row. congruence.
  - right. split; [lia|]. rewrite Hraw.
    rewrite getitem_out_of_range; [reflexivity|]. rewrite Hsl. lia.
Qed.

End PercentileBounds.

Section Outcome.


(** The stored array is the same whatever the outcome. *)
Lemma bootstrap_CI_stored n_boots sig m :
  stored_array (snd (bootstrap_CI n_boots sig m)) =
  stored_array (resampled_sorted n_boots m).
Proof.
  rewrite bootstrap_CI_split.
  destruct (stored_array_resampled n_boots m)
    as (fresh & _ & _ & _ & _ & _ & _ & Hraw).
  rewrite (Hraw sig).
  destruct (getitem (sort_axis0 fresh) (lower_CI_idx n_boots sig)); [|reflexivity].
  destruct (getitem (sort_axis0 fresh) (upper_CI_idx n_boots sig - 1)); [|reflexivity].
  rewrite adjust_narrowness_run.
  destruct (n_samples (self (resampled_sorted n_boots m)) - 1 =? 0)%Z; reflexivity.
Qed.

End Outcome.

(** * The interval estimator *)

Section Invariant.

Lemma init_consistent df n_boots m : consistent (snd (__init__ df n_boots m)).
Proof.
  unfold __init__, bind, set_self, consistent. simpl.
  destruct n_boots as [b|]; [|reflexivity].
  destruct (b =? 0)%Z; [reflexivity|].
  match goal with |- context [_bootstrap_resample b ?m0] =>
    destruct (bootstrap_resample_run b m0) as (rows & rs & -> & _) end.
  reflexivity.
Qed.

Lemma construct_consistent df n_boots t : consistent (construct df n_boots t).
Proof. apply init_consistent. Qed.

Lemma resampled_sorted_consistent n_boots m :
  consistent m -> consistent (resampled_sorted n_boots m).
Proof.
  unfold consistent. intros H.
  destruct (stored_array_resampled n_boots m)
    as (fresh & _ & _ & _ & _ & Hd & Hn & _).
  now rewrite Hd, Hn.
Qed.

End Invariant.





(** C10.  Whatever it returns or raises, [bootstrap_CI] leaves in
    [self.boot_samples] the resampled array sorted in place: every column
    ascending and a rearrangement of the freshly resampled column.  The rows
    then need not be bootstrap draws any more: on the example the stored
    array differs from the fresh one, and its first row is no row of it. *)
Theorem bootstrap_CI_sorts_in_place :
  (forall n_boots sig m,
     exists fresh,
       stored_array (snd (_bootstrap_resample n_boots m)) = Some fresh
       /\ stored_array (snd (bootstrap_CI n_boots sig m)) = Some (sort_axis0 fresh)
       /\ length (sort_axis0 fresh) = length fresh
       /\ forall j, j < ncols fresh ->
            Sorted Qle (column j (sort_axis0 fresh))
            /\ Permutation (column j (sort_axis0 fresh)) (column j fresh))
  /\ (exists fresh sorted row,
        stored_array (snd (_bootstrap_resample 4 example_mem)) = Some fresh
        /\ stored_array (snd (bootstrap_CI 4 (1 # 2) example_mem)) = Some sorted
        /\ sorted <> fresh
        /\ nth_error sorted 0 = Some row /\ ~ In row fresh).
Proof.
  split.
  - intros n_boots sig m.
    destruct (stored_array_resampled n_boots m)
      as (fresh & Hst & _ & _ & Hsorted & _).
    exists fresh. rewrite bootstrap_CI_stored.
    repeat split; auto using sort_axis0_length.
    + rewrite sort_axis0_column by assumption. apply sort_sorted.
    + rewrite sort_axis0_column by assumption. apply sort_perm.
  - exists [[15 # 4; 11 # 4]; [17 # 4; 8 # 4]; [12 # 4; 15 # 4]; [15 # 4; 11 # 4]]%Q,
           [[12 # 4; 8 # 4]; [15 # 4; 11 # 4]; [15 # 4; 11 # 4]; [17 # 4; 15 # 4]]%Q,
           [12 # 4; 8 # 4]%Q.
    split; [vm_compute; reflexivity|].
    split; [vm_compute; reflexivity|].
    split; [discriminate|].
    split; [reflexivity|].
    simpl. intros [H|[H|[H|[H|[]]]]]; discriminate.
Qed.

Section NarrownessCorrection.

Lemma getitem_In {A : Type} (a : list A) k x : getitem a k = Ok x -> In x a.
Proof.
  unfold getitem. intros H.
  destruct (_ && _); [|discriminate].
  destruct (nth_error a _) as [y|] eqn:E; [|discriminate].
  injection H as <-. eapply nth_error_In; eassumption.
Qed.

Lemma raw_bounds_lengths n_boots sig m lower upper m1 :
  raw_bounds n_boots sig m = (Ok (lower, upper), m1) ->
  length lower = length upper /\ m1 = resampled_sorted n_boots m.
Proof.
  intros Hraw.
  destruct (stored_array_resampled n_boots m)
    as (fresh & _ & _ & _ & _ & _ & _ & Hrun).
  rewrite (Hrun sig) in Hraw.
  destruct (getitem _ (lower_CI_idx _ _)) as [x|] eqn:E1; [|discriminate].
  destruct (getitem _ (upper_CI_idx _ _ - 1)) as [y|] eqn:E2; [|discriminate].
  injection Hraw as <- <- <-.
  pose proof (sort_axis0_rect fresh) as Hr. unfold rect in Hr.
  rewrite List.Forall_forall in Hr.
  apply getitem_In, Hr in E1. apply getitem_In, Hr in E2.
  split; [congruence|reflexivity].
Qed.

Variables (n_boots : Z) (sig : Q) (m : Mem) (lower upper : list Q) (m1 : Mem).
Hypothesis Hinv : consistent m.
Hypothesis Hrows : 2 <= shape0 (data (self m)).
Hypothesis Hraw : raw_bounds n_boots sig m = (Ok (lower, upper), m1).

(** With two subjects or more the adjustment goes through, and column by
    column it is the arithmetic of the source. *)
Lemma bootstrap_CI_adjusted :
  exists m' lower' upper',
    bootstrap_CI n_boots sig m = (Ok tt, m')
    /\ ci_lower (self m') = Some lower'
    /\ ci_upper (self m') = Some upper'
    /\ length lower' = length lower
    /\ length upper' = length upper
    /\ forall j, j < length lower ->
         let n := Z.of_nat (shape0 (data (self m))) in
         let factor := sqrt (IZR n / IZR (n - 1)) in
         let l := Q2R (nth j lower 0%Q) in
         let u := Q2R (nth j upper 0%Q) in
         nth j lower' 0%R = (l - (factor * (u - l) - (u - l)) / 2)%R
         /\ nth j upper' 0%R = (u + (factor * (u - l) - (u - l)) / 2)%R.
Proof.
  destruct (raw_bounds_lengths _ _ _ _ _ _ Hraw) as [Hlen Hm1].
  rewrite bootstrap_CI_split, Hraw, adjust_narrowness_run.
  set (n := Z.of_nat (shape0 (data (self m)))).
  assert (Hn : n_samples (self m1) = n).
  { subst m1. unfold n. rewrite <- Hinv.
    destruct (stored_array_resampled n_boots m)
      as (fresh & _ & _ & _ & _ & _ & Hn & _). exact Hn. }
  rewrite Hn. destruct (Z.eqb_spec (n - 1) 0) as [E|_]; [unfold n in E; lia|].
  cbv zeta. set (factor := sqrt (IZR n / IZR (n - 1))).
  set (change := ci_change factor (to_real lower) (to_real upper)).
  assert (Hcl : length change = length lower).
  { unfold change. rewrite ci_change_length; rewrite !to_real_length; auto. }
  eexists _, _, _. split; [reflexivity|]. simpl.
  split; [reflexivity|]. split; [reflexivity|].
  unfold sub, add.
  rewrite !zip_with_length, !div_scalar_length, !to_real_length, Hcl.
  split; [lia|]. split; [lia|].
  intros j Hj.
  rewrite !zip_with_nth
    by (rewrite ?div_scalar_length, ?to_real_length, ?Hcl; lia).
  rewrite !div_scalar_nth by lia.
  unfold change. rewrite ci_change_nth by (rewrite !to_real_length; lia).
  rewrite !to_real_nth by lia. split; reflexivity.
Qed.

End NarrownessCorrection.





(** * Failures of the interval estimator *)


Section Failures.

Variables (n_boots : Z) (sig : Q) (m : Mem).



End Failures.

(** C6, as the code has it.  For every table, a table of zero rows
    included, and every [n_boots <= 0], [_bootstrap_resample] raises
    nothing: the loop body never runs and an empty array is stored. *)
Theorem bootstrap_resample_nonpositive n_boots m :
  (n_boots <= 0)%Z ->
  fst (_bootstrap_resample n_boots m) = Ok tt
  /\ stored_array (snd (_bootstrap_resample n_boots m)) = Some [].
Proof.
  intros Hle.
  destruct (bootstrap_resample_run n_boots m) as (rows & rs & -> & Hlen & _).
  split; [reflexivity|]. unfold stored_array. simpl.
  rewrite lookup_insert_eq.
  destruct rows; [reflexivity|]. simpl in Hlen. lia.
Qed.

Lemma bootstrap_resample_nonpositive_witness :
  fst (_bootstrap_resample (-3) empty_mem) = Ok tt
  /\ stored_array (snd (_bootstrap_resample (-3) empty_mem)) = Some [].
Proof.
  apply (bootstrap_resample_nonpositive (-3) empty_mem). lia.
Defined.

(** C6 as stated fails: with [n_boots = 0] the resampling returns normally
    and stores an empty array. *)
Lemma bootstrap_resample_zero_boots_returns :
  fst (_bootstrap_resample 0 example_mem) = Ok tt
  /\ stored_array (snd (_bootstrap_resample 0 example_mem)) = Some [].
Proof. split; vm_compute; reflexivity. Qed.







(** * Runs of a boolean sequence *)

Section Groupby.

Context {A : Type} (key : A -> bool).

(** The blocks, in order, make up the list. *)
Lemma groupby_concat xs : concat (map snd (groupby key xs)) = xs.
Proof.
  induction xs as [|x xs IH]; simpl; [reflexivity|].
  destruct (groupby key xs) as [|[k g] rest]; simpl in *.
  - now subst.
  - destruct (Bool.eqb (key x) k); simpl; now rewrite <- IH.
Qed.

(** Every block is non-empty and has the key it is labelled with. *)
Lemma groupby_blocks xs b g :
  In (b, g) (groupby key xs) -> g <> [] /\ forall x, In x g -> key x = b.
Proof.
  revert b g. induction xs as [|x xs IH]; simpl; intros b g Hin; [easy|].
  destruct (groupby key xs) as [|[k g0] rest] eqn:E.
  - destruct Hin as [[= <- <-]|[]]. split; [easy|].
    intros y [<-|[]]. reflexivity.
  - destruct (Bool.eqb (key x) k) eqn:Ek.
    + destruct Hin as [[= <- <-]|Hin].
      * split; [easy|]. intros y [<-|Hy].
        -- now apply eqb_prop.
        -- apply (IH k g0); [now left|assumption].
      * apply IH. now right.
    + destruct Hin as [[= <- <-]|Hin].
      * split; [easy|]. intros y [<-|[]]. reflexivity.
      * now apply IH.
Qed.

(** Neighbouring blocks have different keys. *)
Lemma groupby_alternates xs :
  Sorted (fun x y => fst x <> fst y) (groupby key xs).
Proof.
  induction xs as [|x xs IH]; simpl; [constructor|].
  destruct (groupby key xs) as [|[k g0] rest] eqn:E.
  - repeat constructor.
  - destruct (Bool.eqb (key x) k) eqn:Ek.
    + inversion IH as [|? ? Hs Hhd]; subst.
      constructor; [assumption|].
      destruct rest; constructor. now inversion Hhd.
    + constructor; [assumption|]. constructor. simpl.
      intros Heq. rewrite Heq, eqb_reflx in Ek. discriminate.
Qed.

End Groupby.

Section Lists.

Lemma Sorted_neighbours {A : Type} (R : A -> A -> Prop) l1 x y l2 :
  Sorted R (l1 ++ x :: y :: l2) -> R x y.
Proof.
  induction l1 as [|z l1 IH]; simpl; intros Hs.
  - inversion Hs as [|? ? _ Hhd]; subst. now inversion Hhd.
  - apply IH. now inversion Hs.
Qed.

Lemma seq_split s n (l1 l2 : list nat) :
  seq s n = l1 ++ l2 ->
  l1 = seq s (length l1) /\ l2 = seq (s + length l1) (length l2).
Proof.
  intros H.
  assert (Hn : n = length l1 + length l2).
  { apply (f_equal (@length nat)) in H.
    now rewrite length_seq, length_app in H. }
  subst n. rewrite seq_app in H.
  apply app_inj_1 in H as [H1 H2]; [now split|].
  now rewrite length_seq.
Qed.

Lemma StronglySorted_seq s n : StronglySorted lt (seq s n).
Proof.
  revert s. induction n as [|n IH]; intros s; simpl; constructor.
  - apply IH.
  - apply List.Forall_forall. intros x Hx. apply in_seq in Hx. lia.
Qed.

Lemma StronglySorted_app_iff {A : Type} (R : A -> A -> Prop) (a b : list A) :
  StronglySorted R (a ++ b) <->
  StronglySorted R a /\ StronglySorted R b
  /\ forall x y, In x a -> In y b -> R x y.
Proof.
  induction a as [|z a IH]; simpl.
  - split; [intros H; repeat split; [constructor|assumption|easy]|tauto].
  - split.
    + intros H. inversion H as [|? ? Hs Hall]; subst.
      apply IH in Hs as (Ha & Hb & Hab).
      rewrite List.Forall_forall in Hall.
      split; [|split; [assumption|]].
      * constructor; [assumption|]. apply List.Forall_forall.
        intros x Hx. apply Hall, in_or_app. now left.
      * intros x y [<-|Hx] Hy; [|now apply Hab].
        apply Hall, in_or_app. now right.
    + intros (Ha & Hb & Hab). inversion Ha as [|? ? Hs Hall]; subst.
      rewrite List.Forall_forall in Hall.
      constructor.
      * apply IH. repeat split; auto.
      * apply List.Forall_forall. intros x Hx.
        apply in_app_or in Hx as [Hx|Hx]; [now apply Hall|apply Hab; auto].
Qed.

(** Dropping blocks keeps the indices increasing. *)
Lemma StronglySorted_concat_filter {B : Type}
    (f : B * list nat -> bool) (l : list (B * list nat)) :
  StronglySorted lt (concat (map snd l)) ->
  StronglySorted lt (concat (map snd (List.filter f l))).
Proof.
  induction l as [|x l IH]; simpl; intros Hs; [constructor|].
  apply StronglySorted_app_iff in Hs as (Ha & Hb & Hab).
  destruct (f x); simpl; [|now apply IH].
  apply StronglySorted_app_iff. repeat split; auto.
  intros i j Hi Hj. apply Hab; [assumption|].
  apply in_concat in Hj as (g & Hg & Hj). apply in_concat.
  exists g. split; [|assumption].
  apply in_map_iff in Hg as (y & <- & Hy). apply in_map_iff.
  exists y. split; [reflexivity|].
  apply filter_In in Hy. tauto.
Qed.

End Lists.

Section Runs.

Variable key : nat -> bool.
Variable p : nat.

(** Every block of [groupby] over [range(p)] is a maximal run. *)
Lemma groupby_maximal b g :
  In (b, g) (groupby key (seq 0 p)) -> maximal_run key p b g.
Proof.
  intros Hin.
  pose proof (groupby_concat key (seq 0 p)) as Hc.
  pose proof (groupby_alternates key (seq 0 p)) as Hs.
  pose proof (groupby_blocks key (seq 0 p)) as Hb.
  destruct (in_split _ _ Hin) as (pre & post & Hgs).
  rewrite Hgs in Hc, Hs, Hb. clear Hin Hgs.
  rewrite map_app, concat_app in Hc. simpl in Hc.
  assert (Hp : p = length (concat (map snd pre)) + (length g
                  + length (concat (map snd post)))).
  { apply (f_equal (@length nat)) in Hc.
    now rewrite !length_app, length_seq in Hc. }
  symmetry in Hc. apply seq_split in Hc as [Hpre Hrest].
  symmetry in Hrest. apply seq_split in Hrest as [Hg Hpost].
  simpl in Hg, Hpost.
  set (a := length (concat (map snd pre))) in *.
  destruct (Hb b g) as [Hne Hkey]; [apply in_elt|].
  exists a, (length g).
  split; [exact Hg|].
  split; [destruct g; [easy|simpl; lia]|].
  split; [lia|].
  split; [intros i Hi; apply Hkey; rewrite Hg; apply in_seq; lia|].
  split.
  - destruct pre as [|[b' g'] pre' _] using rev_ind; [now left|right].
    rewrite <- app_assoc in Hs. simpl in Hs.
    apply Sorted_neighbours in Hs. simpl in Hs.
    destruct (Hb b' g') as [Hne' Hkey'].
    { apply in_or_app. left. apply in_or_app. right. now left. }
    rewrite map_app, concat_app in Hpre. simpl in Hpre.
    rewrite app_nil_r in Hpre.
    assert (Ha : a = length (concat (map snd pre')) + length g').
    { unfold a. now rewrite map_app, concat_app, length_app; simpl;
        rewrite app_nil_r. }
    symmetry in Hpre. apply seq_split in Hpre as [_ Hg'].
    assert (Hlen' : 0 < length g') by (destruct g'; [easy|simpl; lia]).
    rewrite (Hkey' (a - 1)); [assumption|].
    rewrite Hg'. apply in_seq. simpl. lia.
  - destruct post as [|[b' g'] post']; [left; simpl in Hp; lia|right].
    apply Sorted_neighbours in Hs. simpl in Hs.
    destruct (Hb b' g') as [Hne' Hkey'].
    { apply in_or_app. right. right. now left. }
    simpl in Hpost. symmetry in Hpost. apply seq_split in Hpost as [Hg' _].
    assert (Hlen' : 0 < length g') by (destruct g'; [easy|simpl; lia]).
    rewrite (Hkey' (a + length g)); [congruence|].
    rewrite Hg'. apply in_seq. lia.
Qed.

(** Two maximal runs through a common index are the same run. *)
Lemma maximal_run_unique b g b' g' i :
  maximal_run key p b g -> maximal_run key p b' g' ->
  In i g -> In i g' -> b = b' /\ g = g'.
Proof.
  intros (s & len & -> & Hlen & Hp & Hkey & Hleft & Hright)
         (s' & len' & -> & Hlen' & Hp' & Hkey' & Hleft' & Hright') Hi Hi'.
  apply in_seq in Hi, Hi'.
  assert (Hb : b = b') by (rewrite <- (Hkey i), <- (Hkey' i); auto).
  subst b'. split; [reflexivity|].
  assert (s = s').
  { destruct (Nat.lt_trichotomy s s') as [Hlt|[Heq|Hgt]]; [|assumption|].
    - destruct Hleft' as [?|Hne]; [lia|]. exfalso. apply Hne, Hkey. lia.
    - destruct Hleft as [?|Hne]; [lia|]. exfalso. apply Hne, Hkey'. lia. }
  subst s'.
  assert (len = len'); [|now subst].
  destruct (Nat.lt_trichotomy len len') as [Hlt|[Heq|Hgt]]; [|assumption|].
  - destruct Hright as [?|Hne]; [lia|]. exfalso. apply Hne, Hkey'. lia.
  - destruct Hright' as [?|Hne]; [lia|]. exfalso. apply Hne, Hkey. lia.
Qed.

(** Every maximal run is a block of [groupby] over [range(p)]. *)
Lemma groupby_complete b g :
  maximal_run key p b g -> In (b, g) (groupby key (seq 0 p)).
Proof.
  intros Hrun.
  pose proof Hrun as (s & len & Hg & Hlen & Hp & _).
  assert (Hs : In s (concat (map snd (groupby key (seq 0 p))))).
  { rewrite groupby_concat. apply in_seq. lia. }
  apply in_concat in Hs as (g' & Hg' & Hs).
  apply in_map_iff in Hg' as ([b' g''] & Heq & Hin). simpl in Heq. subst g''.
  destruct (maximal_run_unique b g b' g' s) as [-> ->]; auto.
  - now apply groupby_maximal.
  - subst g. apply in_seq. lia.
Qed.

Lemma groupby_partitions : partitions_into_runs key p (groupby key (seq 0 p)).
Proof.
  split; [apply groupby_concat|].
  intros b g. split; [apply groupby_maximal|apply groupby_complete].
Qed.

Lemma maximal_run_value b b' g :
  maximal_run key p b g -> maximal_run key p b' g -> b = b'.
Proof.
  intros H H'. pose proof H as (s & len & Hg & Hlen & _).
  apply (maximal_run_unique b g b' g s H H'); subst g; apply in_seq; lia.
Qed.

End Runs.

(** * The event detector *)

Section EventDetector.

Lemma gtb_spec x threshold : gtb x threshold = true <-> (x > threshold)%R.
Proof.
  unfold gtb, Rgt. destruct (Rlt_dec threshold x) as [Hlt|Hge].
  - tauto.
  - split; [discriminate|]. intros H. contradiction.
Qed.

Lemma neg_length v : length (neg v) = length v.
Proof. apply length_map. Qed.

Lemma neg_nth v i : nth i (neg v) 0%R = (- nth i v 0)%R.
Proof.
  unfold neg. revert i.
  induction v as [|x v IH]; intros [|i]; simpl; try lra. apply IH.
Qed.

Lemma zip_filter_runs (f : bool * list nat -> bool) (gb : list (bool * list nat)) :
  map fst (List.filter (fun gk : list nat * bool => f (snd gk, fst gk))
             (combine (map snd gb) (map fst gb)))
  = map snd (List.filter f gb).
Proof.
  induction gb as [|[b g] gb IH]; simpl; [reflexivity|].
  destruct (f (b, g)); simpl; now rewrite IH.
Qed.

Variables (arr : list R) (threshold : R) (num_consec : Z).

(** The comprehension over [zip(groups, uniquekeys)] keeps the blocks of
    [groupby] that are true and longer than [num_consec]. *)
Lemma sig_runs_filter :
  sig_runs arr threshold num_consec =
    map snd (List.filter (long_true num_consec)
               (groupby (exceeds arr threshold) (seq 0 (length arr)))).
Proof.
  unfold sig_runs, range. rewrite Nat2Z.id.
  apply (zip_filter_runs (long_true num_consec)).
Qed.

Lemma sig_runs_retains :
  retains (exceeds arr threshold) (length arr) num_consec
    (sig_runs arr threshold num_consec).
Proof.
  rewrite sig_runs_filter. split.
  - intros g Hg. apply in_map_iff in Hg as ([b g'] & Heq & Hin).
    simpl in Heq. subst g'. apply filter_In in Hin as [Hin Hkeep].
    unfold long_true in Hkeep. simpl in Hkeep.
    apply andb_prop in Hkeep as [-> _]. now apply groupby_maximal.
  - intros b g Hrun. split.
    + intros Hg. apply in_map_iff in Hg as ([b' g'] & Heq & Hin).
      simpl in Heq. subst g'. apply filter_In in Hin as [Hin Hkeep].
      unfold long_true in Hkeep. simpl in Hkeep.
      apply andb_prop in Hkeep as [-> Hlen].
      apply groupby_maximal in Hin.
      split; [eapply maximal_run_value; eassumption|].
      now apply Z.ltb_lt.
    + intros [-> Hlen]. apply in_map_iff. exists (true, g).
      split; [reflexivity|]. apply filter_In.
      split; [now apply groupby_complete|].
      unfold long_true. simpl. now apply Z.ltb_lt.
Qed.

Lemma sig_runs_increasing :
  StronglySorted lt (concat (sig_runs arr threshold num_consec)).
Proof.
  rewrite sig_runs_filter. apply StronglySorted_concat_filter.
  rewrite groupby_concat. apply StronglySorted_seq.
Qed.

End EventDetector.

Section DetectorRun.

Variables (num_consec : Z) (threshold : R) (m : Mem) (lower upper : list R).
Hypothesis Hlower : ci_lower (self m) = Some lower.
Hypothesis Hupper : ci_upper (self m) = Some upper.

(** With both bounds set the detector raises nothing and writes the two
    keys. *)
Lemma get_sig_events_run :
  exists m',
    get_sig_events num_consec threshold m = (Ok tt, m')
    /\ sig_events (self m') !! "lower" = Some (sig_runs lower threshold num_consec)
    /\ sig_events (self m') !! "upper"
       = Some (sig_runs (neg upper) threshold num_consec).
Proof.
  unfold get_sig_events, sig_events_for, bind, get_self, the_array, set_event,
    set_self, ret. simpl. rewrite Hlower. simpl. rewrite Hupper. simpl.
  eexists. split; [reflexivity|]. simpl.
  split; [|apply lookup_insert_eq].
  rewrite lookup_insert_ne by discriminate. apply lookup_insert_eq.
Qed.

End DetectorRun.

(** C3.  For each bound the detector keeps a maximal run exactly when its
    value is true and its length is strictly greater than [num_consec]: a
    true run of exactly [num_consec] indices is dropped, one of
    [num_consec + 1] indices is kept. *)
Theorem get_sig_events_run_length num_consec threshold m lower upper :
  ci_lower (self m) = Some lower ->
  ci_upper (self m) = Some upper ->
  exists m' kept_lower kept_upper,
    get_sig_events num_consec threshold m = (Ok tt, m')
    /\ sig_events (self m') !! "lower" = Some kept_lower
    /\ sig_events (self m') !! "upper" = Some kept_upper
    /\ retains (exceeds lower threshold) (length lower) num_consec kept_lower
    /\ retains (exceeds (neg upper) threshold) (length upper) num_consec kept_upper
    /\ (forall g, maximal_run (exceeds lower threshold) (length lower) true g ->
          (Z.of_nat (length g) = num_consec -> ~ In g kept_lower)
          /\ (Z.of_nat (length g) = (num_consec + 1)%Z -> In g kept_lower))
    /\ (forall g, maximal_run (exceeds (neg upper) threshold) (length upper) true g ->
          (Z.of_nat (length g) = num_consec -> ~ In g kept_upper)
          /\ (Z.of_nat (length g) = (num_consec + 1)%Z -> In g kept_upper)).
Proof.
  intros Hl Hu.
  destruct (get_sig_events_run num_consec threshold m lower upper Hl Hu)
    as (m' & Hrun & Hlo & Hup).
  pose proof (sig_runs_retains lower threshold num_consec) as Rl.
  pose proof (sig_runs_retains (neg upper) threshold num_consec) as Ru.
  rewrite neg_length in Ru.
  exists m', (sig_runs lower threshold num_consec),
         (sig_runs (neg upper) threshold num_consec).
  repeat (split; [assumption|]).
  split; intros g Hg.
  - destruct Rl as [_ Rl]. specialize (Rl true g Hg). split.
    + intros Hlen Hin. apply Rl in Hin. lia.
    + intros Hlen. apply Rl. split; [reflexivity|lia].
  - destruct Ru as [_ Ru]. specialize (Ru true g Hg). split.
    + intros Hlen Hin. apply Ru in Hin. lia.
    + intros Hlen. apply Ru. split; [reflexivity|lia].
Qed.

Lemma get_sig_events_run_length_witness :
  exists m', get_sig_events 1 0 (bounds_mem [1; 2; -1; 3] [2; 3; -2; -4])%R = (Ok tt, m').
Proof.
  destruct (get_sig_events_run_length 1 0%R
              (bounds_mem [1; 2; -1; 3] [2; 3; -2; -4])%R
              [1; 2; -1; 3]%R [2; 3; -2; -4]%R)
    as (m' & _ & _ & Hrun & _).
  - reflexivity.
  - reflexivity.
  - exists m'. exact Hrun.
Defined.

(** C4.  The detector tests [ci_lower[i] > threshold] for the key "lower"
    and [-ci_upper[i] > threshold], that is [ci_upper[i] < -threshold], for
    the key "upper"; for each it cuts [0 .. p-1] into the maximal runs of
    consecutive indices with the same test value, and the runs it keeps
    come in the order of their first index, each a block of consecutive
    increasing indices. *)
Theorem get_sig_events_partition num_consec threshold m lower upper :
  ci_lower (self m) = Some lower ->
  ci_upper (self m) = Some upper ->
  (forall i, exceeds lower threshold i = true <-> (nth i lower 0 > threshold)%R)
  /\ (forall i, exceeds (neg upper) threshold i = true <->
                (- nth i upper 0 > threshold)%R)
  /\ (forall i, exceeds (neg upper) threshold i = true <->
                (nth i upper 0 < - threshold)%R)
  /\ exists m' runs_lower runs_upper,
       get_sig_events num_consec threshold m = (Ok tt, m')
       /\ partitions_into_runs (exceeds lower threshold) (length lower) runs_lower
       /\ partitions_into_runs (exceeds (neg upper) threshold) (length upper) runs_upper
       /\ sig_events (self m') !! "lower"
          = Some (map snd (List.filter (long_true num_consec) runs_lower))
       /\ sig_events (self m') !! "upper"
          = Some (map snd (List.filter (long_true num_consec) runs_upper))
       /\ StronglySorted lt
            (concat (map snd (List.filter (long_true num_consec) runs_lower)))
       /\ StronglySorted lt
            (concat (map snd (List.filter (long_true num_consec) runs_upper)))
       /\ forall b g, In (b, g) runs_lower \/ In (b, g) runs_upper ->
            exists s len, g = seq s len /\ 0 < len.
Proof.
  intros Hl Hu.
  split; [intros i; apply gtb_spec|].
  split; [intros i; unfold exceeds; rewrite neg_nth; apply gtb_spec|].
  split.
  { intros i. unfold exceeds. rewrite neg_nth, gtb_spec. split; intros H; lra. }
  destruct (get_sig_events_run num_consec threshold m lower upper Hl Hu)
    as (m' & Hrun & Hlo & Hup).
  rewrite sig_runs_filter in Hlo, Hup. rewrite neg_length in Hup.
  pose proof (groupby_partitions (exceeds lower threshold) (length lower)) as Pl.
  pose proof (groupby_partitions (exceeds (neg upper) threshold) (length upper)) as Pu.
  eexists m', _, _. split; [exact Hrun|].
  split; [exact Pl|]. split; [exact Pu|].
  split; [exact Hlo|]. split; [exact Hup|].
  split; [|split].
  - apply StronglySorted_concat_filter. rewrite groupby_concat.
    apply StronglySorted_seq.
  - apply StronglySorted_concat_filter. rewrite groupby_concat.
    apply StronglySorted_seq.
  - intros b g [Hin|Hin]; apply groupby_maximal in Hin;
      destruct Hin as (s & len & Hg & Hlen & _); eauto.
Qed.

Lemma get_sig_events_partition_witness :
  exists m', get_sig_events 1 0 (bounds_mem [1; 2; -1; 3] [2; 3; -2; -4])%R = (Ok tt, m').
Proof.
  destruct (get_sig_events_partition 1 0%R
              (bounds_mem [1; 2; -1; 3] [2; 3; -2; -4])%R
              [1; 2; -1; 3]%R [2; 3; -2; -4]%R)
    as (_ & _ & _ & m' & _ & _ & Hrun & _).
  - reflexivity.
  - reflexivity.
  - exists m'. exact Hrun.
Defined.

(** The run-length boundary on an example: with the test values
    [true; true; false; true], [num_consec = 1] keeps the run of two and
    drops the run of one, [num_consec = 2] drops both, [num_consec = 0]
    keeps both. *)
Example sig_runs_boundary :
  sig_runs [1; 2; -1; 3]%R 0 1 = [[0; 1]]
  /\ sig_runs [1; 2; -1; 3]%R 0 2 = []
  /\ sig_runs [1; 2; -1; 3]%R 0 0 = [[0; 1]; [3]].
Proof.
  assert (Hkeys : forall k,
            sig_runs [1; 2; -1; 3]%R 0 k =
            map snd (List.filter (long_true k)
                       [(true, [0; 1]); (false, [2]); (true, [3])])).
  { intros k. rewrite sig_runs_filter. unfold exceeds, gtb. simpl.
    repeat (destruct (Rlt_dec _ _) as [?|?]; try lra); reflexivity. }
  rewrite !Hkeys. repeat split.
Qed.

(** * The constructor and the resampler *)

Section ResampledState.

Variables (n_boots : Z) (m : Mem).

(** The states after the resampling and after the in-place sort, in full:
    one new array object, the reference to it, the generator advanced. *)
Lemma resampled_state :
  exists rows rs,
    _bootstrap_resample n_boots m =
      (Ok tt, {| self := set_boot_samples (Some (fresh (dom (heap m)))) (self m);
                 heap := <[fresh (dom (heap m)) := rows]> (heap m);
                 random := rs |})
    /\ resampled_sorted n_boots m =
         {| self := set_boot_samples (Some (fresh (dom (heap m)))) (self m);
            heap := <[fresh (dom (heap m)) := sort_axis0 rows]>
                      (<[fresh (dom (heap m)) := rows]> (heap m));
            random := rs |}
    /\ length rows = Z.to_nat n_boots
    /\ rect (columns (data (self m))) rows.
Proof.
  destruct (bootstrap_resample_run n_boots m) as (rows & rs & Hrun & Hlen & Hrect).
  exists rows, rs. repeat split; auto.
  unfold resampled_sorted, bind. rewrite Hrun. unfold get_self, ndarray_sort.
  simpl. now rewrite lookup_insert_eq.
Qed.

Lemma fresh_not_allocated l (a : ndarray) :
  heap m !! l = Some a -> l <> fresh (dom (heap m)).
Proof.
  intros Hl ->. apply (is_fresh (dom (heap m))).
  apply elem_of_dom. eauto.
Qed.

End ResampledState.

(** X1.  The constructor never fails.  It records the table and its number
    of rows, leaves the bounds unset and the registry empty; with [n_boots]
    absent or 0 no array is stored and the generator is not read, otherwise
    the bootstrap matrix of [max n_boots 0] rows by [p] columns is stored. *)
Theorem init_state df n_boots m :
  fst (__init__ df n_boots m) = Ok tt
  /\ data (self (snd (__init__ df n_boots m))) = df
  /\ n_samples (self (snd (__init__ df n_boots m))) = Z.of_nat (shape0 df)
  /\ ci_lower (self (snd (__init__ df n_boots m))) = None
  /\ ci_upper (self (snd (__init__ df n_boots m))) = None
  /\ sig_events (self (snd (__init__ df n_boots m))) = ∅
  /\ match n_boots with
     | Some (Zpos _ as b) | Some (Zneg _ as b) =>
         exists boot,
           stored_array (snd (__init__ df n_boots m)) = Some boot
           /\ length boot = Z.to_nat b
           /\ rect (columns df) boot
     | _ =>
         boot_samples (self (snd (__init__ df n_boots m))) = None
         /\ heap (snd (__init__ df n_boots m)) = heap m
         /\ random (snd (__init__ df n_boots m)) = random m
     end.
Proof.
  unfold __init__, bind, set_self.
  destruct n_boots as [[|b|b]|]; try (repeat split; reflexivity).
  - change (Z.pos b =? 0)%Z with false. cbv iota beta.
    match goal with |- context [_bootstrap_resample ?z ?m0] =>
      destruct (resampled_state z m0) as (rows & rs & -> & _ & Hlen & Hrect) end.
    simpl. repeat (split; [reflexivity|]).
    exists rows. unfold stored_array. simpl. rewrite lookup_insert_eq. auto.
  - change (Z.neg b =? 0)%Z with false. cbv iota beta.
    match goal with |- context [_bootstrap_resample ?z ?m0] =>
      destruct (resampled_state z m0) as (rows & rs & -> & _ & Hlen & Hrect) end.
    simpl. repeat (split; [reflexivity|]).
    exists rows. unfold stored_array. simpl. rewrite lookup_insert_eq. auto.
Qed.

(** X2.  The resampler never fails and stores a matrix of [max n_boots 0]
    rows, every row with one entry per column of the table. *)
Theorem bootstrap_resample_shape n_boots m :
  exists boot,
    fst (_bootstrap_resample n_boots m) = Ok tt
    /\ stored_array (snd (_bootstrap_resample n_boots m)) = Some boot
    /\ Z.of_nat (length boot) = Z.max 0 n_boots
    /\ rect (columns (data (self m))) boot.
Proof.
  destruct (resampled_state n_boots m) as (rows & rs & -> & _ & Hlen & Hrect).
  exists rows. unfold stored_array. simpl. rewrite lookup_insert_eq.
  repeat split; auto. lia.
Qed.

(** X3.  The resampler replaces the reference and nothing else: the table,
    the bounds and the registry are as before, and every array object that
    existed before the call still holds the same values (the new matrix is
    a new object, never an update of the old one). *)
Theorem bootstrap_resample_frame n_boots m :
  data (self (snd (_bootstrap_resample n_boots m))) = data (self m)
  /\ n_samples (self (snd (_bootstrap_resample n_boots m))) = n_samples (self m)
  /\ ci_lower (self (snd (_bootstrap_resample n_boots m))) = ci_lower (self m)
  /\ ci_upper (self (snd (_bootstrap_resample n_boots m))) = ci_upper (self m)
  /\ sig_events (self (snd (_bootstrap_resample n_boots m))) = sig_events (self m)
  /\ forall l a, heap m !! l = Some a ->
       heap (snd (_bootstrap_resample n_boots m)) !! l = Some a
       /\ boot_samples (self (snd (_bootstrap_resample n_boots m))) <> Some l.
Proof.
  destruct (resampled_state n_boots m) as (rows & rs & -> & _ & _ & _).
  simpl. repeat (split; [reflexivity|]).
  intros l a Hl. pose proof (fresh_not_allocated m l a Hl) as Hne. split.
  - now rewrite lookup_insert_ne by congruence.
  - congruence.
Qed.

(** * Bootstrap means *)

Section Means.






End Means.



(** * Outcomes of the interval estimator *)

Section Outcomes.

Lemma lower_CI_idx_lt (n_boots : Z) (sig : Q) :
  (2 <= n_boots)%Z -> (sig < 1)%Q -> (lower_CI_idx n_boots sig < n_boots)%Z.
Proof.
  intros HB Hs. unfold lower_CI_idx.
  assert (Hle : (inject_Z n_boots * (sig / 2) <= inject_Z (n_boots - 1))%Q).
  { unfold Zminus. rewrite inject_Z_plus.
    change (inject_Z (- (1))) with (-1 # 1)%Q.
    assert (Hb : (2 <= inject_Z n_boots)%Q).
    { change 2%Q with (inject_Z 2). rewrite <- Zle_Qle. lia. }
    set (b := inject_Z n_boots) in *.
    apply Qle_trans with (b * (1 # 2))%Q; [|Lqa.lra].
    apply Qmult_le_l; [Lqa.lra|].
    apply Qle_shift_div_r; [reflexivity|]. Lqa.lra. }
  apply Qceiling_resp_le in Hle. rewrite Qceiling_Z in Hle. lia.
Qed.

(** The state [bootstrap_CI] ends in: the resampled, sorted state when it
    raises, and that state with the two bounds set when it returns. *)
Lemma bootstrap_CI_final n_boots sig m :
  (exists e, bootstrap_CI n_boots sig m = (Raise e, resampled_sorted n_boots m)
             /\ (e = IndexError \/ e = ZeroDivisionError))
  \/ (exists lower' upper',
        bootstrap_CI n_boots sig m =
          (Ok tt,
           {| self := set_ci_upper (Some upper')
                        (set_ci_lower (Some lower')
                           (self (resampled_sorted n_boots m)));
              heap := heap (resampled_sorted n_boots m);
              random := random (resampled_sorted n_boots m) |})).
Proof.
  rewrite bootstrap_CI_split.
  destruct (stored_array_resampled n_boots m)
    as (fresh & _ & _ & _ & _ & _ & _ & Hraw).
  rewrite (Hraw sig).
  destruct (getitem _ (lower_CI_idx _ _)) as [x|e] eqn:E1.
  2:{ left. exists e. apply getitem_raise_iff in E1 as [-> _]. auto. }
  destruct (getitem _ (upper_CI_idx _ _ - 1)) as [y|e] eqn:E2.
  2:{ left. exists e. apply getitem_raise_iff in E2 as [-> _]. auto. }
  rewrite adjust_narrowness_run.
  destruct (_ =? 0)%Z; [left; eauto|right; eauto].
Qed.


End Outcomes.



(** X6.  On an object whose [n_samples] is its number of rows, with at
    least two rows, a significance level in (0,1) and [n_boots >= 2],
    [bootstrap_CI] returns and sets both bounds, one entry per column. *)
Theorem bootstrap_CI_returns n_boots sig m :
  consistent m ->
  2 <= shape0 (data (self m)) ->
  (0 < sig)%Q -> (sig < 1)%Q -> (2 <= n_boots)%Z ->
  exists m' lower' upper',
    bootstrap_CI n_boots sig m = (Ok tt, m')
    /\ ci_lower (self m') = Some lower'
    /\ ci_upper (self m') = Some upper'
    /\ length lower' = columns (data (self m))
    /\ length upper' = columns (data (self m)).
Proof.
  intros Hinv Hrows Hpos Hlt HB.
  destruct (raw_bounds_cases n_boots sig m Hpos)
    as (fresh & _ & _ & _ & [(Hlo & _ & Hnc & Hraw)|(Hout & _)]).
  2:{ exfalso. apply Hout. split.
      - pose proof (lower_CI_idx_pos n_boots sig ltac:(lia) Hpos). lia.
      - now apply lower_CI_idx_lt. }
  destruct (bootstrap_CI_adjusted n_boots sig m _ _ _ Hinv Hrows Hraw)
    as (m' & lower' & upper' & Hrun & Hl & Hu & Hll & Hlu & _).
  exists m', lower', upper'. repeat (split; [assumption|]).
  rewrite Hll, Hlu. unfold sorted_row.
  now rewrite !length_map, !length_seq.
Qed.

Lemma bootstrap_CI_returns_witness :
  exists m', bootstrap_CI 4 (1 # 20) example_mem = (Ok tt, m').
Proof.
  destruct (bootstrap_CI_returns 4 (1 # 20) example_mem)
    as (m' & _ & _ & Hrun & _).
  - reflexivity.
  - vm_compute. lia.
  - reflexivity.
  - reflexivity.
  - lia.
  - exists m'. exact Hrun.
Defined.




(** X9.  Whatever its outcome, [bootstrap_CI] leaves the table, the row
    count and the registry as they were, and modifies no array object that
    existed before the call: the in-place sort touches the new matrix
    only. *)
Theorem bootstrap_CI_frame n_boots sig m :
  data (self (snd (bootstrap_CI n_boots sig m))) = data (self m)
  /\ n_samples (self (snd (bootstrap_CI n_boots sig m))) = n_samples (self m)
  /\ sig_events (self (snd (bootstrap_CI n_boots sig m))) = sig_events (self m)
  /\ forall l a, heap m !! l = Some a ->
       heap (snd (bootstrap_CI n_boots sig m)) !! l = Some a.
Proof.
  assert (Hs : forall m',
            (m' = resampled_sorted n_boots m
             \/ exists lower' upper',
                  m' = {| self := set_ci_upper (Some upper')
                                    (set_ci_lower (Some lower')
                                       (self (resampled_sorted n_boots m)));
                          heap := heap (resampled_sorted n_boots m);
                          random := random (resampled_sorted n_boots m) |}) ->
            data (self m') = data (self m)
            /\ n_samples (self m') = n_samples (self m)
            /\ sig_events (self m') = sig_events (self m)
            /\ forall l a, heap m !! l = Some a -> heap m' !! l = Some a).
  { intros m' Hm'.
    destruct (resampled_state n_boots m) as (rows & rs & _ & Hsorted & _).
    assert (Hheap : forall l a, heap m !! l = Some a ->
                      heap (resampled_sorted n_boots m) !! l = Some a).
    { intros l a Hl. pose proof (fresh_not_allocated m l a Hl).
      rewrite Hsorted. simpl. now rewrite !lookup_insert_ne by congruence. }
    destruct Hm' as [->|(lower' & upper' & ->)]; simpl;
      rewrite ?Hsorted in *; simpl in *; auto. }
  destruct (bootstrap_CI_final n_boots sig m)
    as [(e' & -> & _)|(lower' & upper' & ->)]; apply Hs; simpl; eauto.
Qed.

(** * The raw interval *)

Section RawInterval.



Variables (n_boots : Z) (sig : Q) (m : Mem).
Hypothesis Hinv : consistent m.
Hypothesis Hrows : 2 <= shape0 (data (self m)).
Hypothesis Hpos : (0 < sig)%Q.
Hypothesis Hlower : (0 <= lower_CI_idx n_boots sig < n_boots)%Z.


End RawInterval.







(** * More on the event detector *)

Section DetectorStates.

Variables (num_consec : Z) (threshold : R) (m : Mem).

(** The three ways the detector can end. *)
Lemma get_sig_events_cases :
  get_sig_events num_consec threshold m =
    match ci_lower (self m) with
    | None => (Raise TypeError, m)
    | Some l =>
        match ci_upper (self m) with
        | None =>
            (Raise TypeError,
             with_events (<["lower" := sig_runs l threshold num_consec]>
                            (sig_events (self m))) m)
        | Some u =>
            (Ok tt,
             with_events (<["upper" := sig_runs (neg u) threshold num_consec]>
                            (<["lower" := sig_runs l threshold num_consec]>
                               (sig_events (self m)))) m)
        end
    end.
Proof.
  unfold get_sig_events, sig_events_for, bind, get_self, the_array, set_event,
    set_self, ret, raise, with_events. simpl.
  destruct (ci_lower (self m)) as [l|]; [|reflexivity]. simpl.
  destruct (ci_upper (self m)) as [u|]; reflexivity.
Qed.

End DetectorStates.

Section KeptRuns.

Variables (arr : list R) (threshold : R) (num_consec : Z).

Lemma sig_runs_sound g :
  In g (sig_runs arr threshold num_consec) ->
  (num_consec < Z.of_nat (length g))%Z
  /\ g <> []
  /\ forall i, In i g -> i < length arr /\ exceeds arr threshold i = true.
Proof.
  intros Hg. destruct (sig_runs_retains arr threshold num_consec) as [Hmax Hiff].
  pose proof (Hmax g Hg) as Hrun.
  destruct (proj1 (Hiff true g Hrun) Hg) as [_ Hlen].
  destruct Hrun as (s & len & -> & Hpos & Hp & Hkey & _).
  split; [assumption|]. split; [destruct len; [lia|discriminate]|].
  intros i Hi. apply in_seq in Hi. split; [lia|]. apply Hkey. lia.
Qed.

Lemma sig_runs_complete i :
  (num_consec <= 0)%Z -> i < length arr -> exceeds arr threshold i = true ->
  In i (concat (sig_runs arr threshold num_consec)).
Proof.
  intros Hk Hi Hkey. rewrite sig_runs_filter.
  assert (Hin : In i (concat (map snd (groupby (exceeds arr threshold)
                                         (seq 0 (length arr)))))).
  { rewrite groupby_concat. apply in_seq. lia. }
  apply in_concat in Hin as (g & Hg & Hig).
  apply in_map_iff in Hg as ([b g'] & Heq & Hbg). simpl in Heq. subst g'.
  destruct (groupby_blocks _ _ _ _ Hbg) as [Hne Hb].
  apply in_concat. exists g. split; [|assumption].
  apply in_map_iff. exists (b, g). split; [reflexivity|].
  apply filter_In. split; [assumption|].
  unfold long_true. simpl. rewrite <- (Hb i Hig), Hkey. simpl.
  apply Z.ltb_lt. destruct g; [easy|simpl; lia].
Qed.

Lemma sig_runs_antitone k' g :
  (num_consec <= k')%Z ->
  In g (sig_runs arr threshold k') -> In g (sig_runs arr threshold num_consec).
Proof.
  intros Hk Hg.
  destruct (sig_runs_retains arr threshold k') as [Hmax Hiff].
  pose proof (Hmax g Hg) as Hrun.
  destruct (proj1 (Hiff true g Hrun) Hg) as [_ Hlen].
  destruct (sig_runs_retains arr threshold num_consec) as [_ Hiff'].
  apply (Hiff' true g Hrun). split; [reflexivity|lia].
Qed.

End KeptRuns.

(** X13.  Called before any interval has been computed ([ci_lower] is
    [None]), the detector raises [TypeError] and changes nothing. *)
Theorem get_sig_events_without_bounds num_consec threshold m :
  ci_lower (self m) = None ->
  get_sig_events num_consec threshold m = (Raise TypeError, m).
Proof. intros H. rewrite get_sig_events_cases, H. reflexivity. Qed.

Lemma get_sig_events_without_bounds_witness :
  get_sig_events 0 0 example_mem = (Raise TypeError, example_mem).
Proof.
  apply (get_sig_events_without_bounds 0 0%R example_mem). reflexivity.
Defined.

(** X14.  Whatever its outcome, the detector changes the registry only,
    and in the registry only the keys "lower" and "upper": the table, the
    stored matrix, the bounds, the array objects and the generator are as
    before. *)
Theorem get_sig_events_frame num_consec threshold m :
  data (self (snd (get_sig_events num_consec threshold m))) = data (self m)
  /\ n_samples (self (snd (get_sig_events num_consec threshold m))) = n_samples (self m)
  /\ boot_samples (self (snd (get_sig_events num_consec threshold m)))
     = boot_samples (self m)
  /\ ci_lower (self (snd (get_sig_events num_consec threshold m))) = ci_lower (self m)
  /\ ci_upper (self (snd (get_sig_events num_consec threshold m))) = ci_upper (self m)
  /\ heap (snd (get_sig_events num_consec threshold m)) = heap m
  /\ random (snd (get_sig_events num_consec threshold m)) = random m
  /\ forall ci : string, ci <> "lower" -> ci <> "upper" ->
       sig_events (self (snd (get_sig_events num_consec threshold m))) !! ci
       = sig_events (self m) !! ci.
Proof.
  rewrite get_sig_events_cases.
  destruct (ci_lower (self m)) as [l|] eqn:El;
    [|simpl; rewrite El; repeat split; reflexivity].
  destruct (ci_upper (self m)) as [u|] eqn:Eu; simpl; rewrite El, Eu;
    repeat (split; [reflexivity|]); intros ci Hl Hu;
    now rewrite ?lookup_insert_ne by congruence.
Qed.

(** X15.  The registry is rebuilt, not merged: with both bounds set, a
    call after an earlier call ends in the state the later call alone would
    have given. *)
Theorem get_sig_events_overwrites k1 t1 k2 t2 m lower upper :
  ci_lower (self m) = Some lower ->
  ci_upper (self m) = Some upper ->
  get_sig_events k2 t2 (snd (get_sig_events k1 t1 m)) = get_sig_events k2 t2 m.
Proof.
  intros Hl Hu. rewrite (get_sig_events_cases k1 t1 m), Hl, Hu. simpl.
  rewrite !get_sig_events_cases. simpl. rewrite Hl, Hu.
  unfold with_events, set_sig_events. simpl.
  rewrite (insert_insert_ne _ "lower" "upper") by discriminate.
  now rewrite !insert_insert_eq.
Qed.

Lemma get_sig_events_overwrites_witness :
  get_sig_events 0 1 (snd (get_sig_events 2 0
                             (bounds_mem [1; 2; -1; 3] [2; 3; -2; -4])))%R
  = get_sig_events 0 1 (bounds_mem [1; 2; -1; 3] [2; 3; -2; -4])%R.
Proof.
  apply (get_sig_events_overwrites 2 0%R 0 1%R
           (bounds_mem [1; 2; -1; 3] [2; 3; -2; -4])%R
           [1; 2; -1; 3]%R [2; 3; -2; -4]%R); reflexivity.
Defined.

(** X16.  Every run the detector reports is non-empty and longer than
    [num_consec], and every index in it is a position of the bound at which
    the bound clears the threshold: [ci_lower[i] > threshold] under
    "lower", [ci_upper[i] < -threshold] under "upper". *)
Theorem get_sig_events_sound num_consec threshold m lower upper :
  ci_lower (self m) = Some lower ->
  ci_upper (self m) = Some upper ->
  exists m' kept_lower kept_upper,
    get_sig_events num_consec threshold m = (Ok tt, m')
    /\ sig_events (self m') !! "lower" = Some kept_lower
    /\ sig_events (self m') !! "upper" = Some kept_upper
    /\ (forall g, In g kept_lower ->
          (num_consec < Z.of_nat (length g))%Z /\ g <> []
          /\ forall i, In i g ->
               i < length lower /\ (nth i lower 0 > threshold)%R)
    /\ (forall g, In g kept_upper ->
          (num_consec < Z.of_nat (length g))%Z /\ g <> []
          /\ forall i, In i g ->
               i < length upper /\ (nth i upper 0 < - threshold)%R).
Proof.
  intros Hl Hu.
  destruct (get_sig_events_run num_consec threshold m lower upper Hl Hu)
    as (m' & Hrun & Hlo & Hup).
  exists m', (sig_runs lower threshold num_consec),
         (sig_runs (neg upper) threshold num_consec).
  repeat (split; [assumption|]). split.
  - intros g Hg. apply sig_runs_sound in Hg as (Hlen & Hne & Hall).
    repeat (split; [assumption|]).
    intros i Hi. destruct (Hall i Hi) as [Hp Hkey]. split; [assumption|].
    now apply gtb_spec.
  - intros g Hg. apply sig_runs_sound in Hg as (Hlen & Hne & Hall).
    repeat (split; [assumption|]).
    intros i Hi. destruct (Hall i Hi) as [Hp Hkey].
    rewrite neg_length in Hp. split; [assumption|].
    unfold exceeds in Hkey. rewrite neg_nth in Hkey.
    apply gtb_spec in Hkey. lra.
Qed.

Lemma get_sig_events_sound_witness :
  exists m', get_sig_events 1 0 (bounds_mem [1; 2; -1; 3] [2; 3; -2; -4])%R = (Ok tt, m').
Proof.
  destruct (get_sig_events_sound 1 0%R
              (bounds_mem [1; 2; -1; 3] [2; 3; -2; -4])%R
              [1; 2; -1; 3]%R [2; 3; -2; -4]%R)
    as (m' & _ & _ & Hrun & _); [reflexivity|reflexivity|].
  exists m'. exact Hrun.
Defined.

(** X17.  With [num_consec <= 0] nothing is filtered out: an index is
    reported under "lower" exactly when [ci_lower[i] > threshold], and
    under "upper" exactly when [ci_upper[i] < -threshold]. *)
Theorem get_sig_events_nonpositive_consec num_consec threshold m lower upper :
  ci_lower (self m) = Some lower ->
  ci_upper (self m) = Some upper ->
  (num_consec <= 0)%Z ->
  exists m',
    get_sig_events num_consec threshold m = (Ok tt, m')
    /\ (forall i, In i (reported m' "lower") <->
                  i < length lower /\ (nth i lower 0 > threshold)%R)
    /\ (forall i, In i (reported m' "upper") <->
                  i < length upper /\ (nth i upper 0 < - threshold)%R).
Proof.
  intros Hl Hu Hk.
  destruct (get_sig_events_run num_consec threshold m lower upper Hl Hu)
    as (m' & Hrun & Hlo & Hup).
  exists m'. split; [assumption|]. unfold reported. rewrite Hlo, Hup. split.
  - intros i. split.
    + intros Hi. apply in_concat in Hi as (g & Hg & Hi).
      apply sig_runs_sound in Hg as (_ & _ & Hall).
      destruct (Hall i Hi) as [Hp Hkey]. split; [assumption|].
      now apply gtb_spec.
    + intros [Hp Hkey]. apply sig_runs_complete; auto.
      now apply gtb_spec.
  - intros i. split.
    + intros Hi. apply in_concat in Hi as (g & Hg & Hi).
      apply sig_runs_sound in Hg as (_ & _ & Hall).
      destruct (Hall i Hi) as [Hp Hkey]. rewrite neg_length in Hp.
      split; [assumption|].
      unfold exceeds in Hkey. rewrite neg_nth in Hkey.
      apply gtb_spec in Hkey. lra.
    + intros [Hp Hkey].
      apply sig_runs_complete; [assumption|now rewrite neg_length|].
      unfold exceeds. rewrite neg_nth. apply gtb_spec. lra.
Qed.

Lemma get_sig_events_nonpositive_consec_witness :
  exists m', get_sig_events 0 0 (bounds_mem [1; 2; -1; 3] [2; 3; -2; -4])%R = (Ok tt, m').
Proof.
  destruct (get_sig_events_nonpositive_consec 0 0%R
              (bounds_mem [1; 2; -1; 3] [2; 3; -2; -4])%R
              [1; 2; -1; 3]%R [2; 3; -2; -4]%R)
    as (m' & Hrun & _); [reflexivity|reflexivity|lia|].
  exists m'. exact Hrun.
Defined.

(** X18.  Raising [num_consec] only removes runs: a run reported with
    [num_consec'] is reported with every smaller [num_consec], for both
    keys. *)
Theorem get_sig_events_antitone num_consec num_consec' threshold m lower upper :
  ci_lower (self m) = Some lower ->
  ci_upper (self m) = Some upper ->
  (num_consec <= num_consec')%Z ->
  exists m1 m2 kept_lower kept_upper kept_lower' kept_upper',
    get_sig_events num_consec threshold m = (Ok tt, m1)
    /\ get_sig_events num_consec' threshold m = (Ok tt, m2)
    /\ sig_events (self m1) !! "lower" = Some kept_lower
    /\ sig_events (self m1) !! "upper" = Some kept_upper
    /\ sig_events (self m2) !! "lower" = Some kept_lower'
    /\ sig_events (self m2) !! "upper" = Some kept_upper'
    /\ (forall g, In g kept_lower' -> In g kept_lower)
    /\ (forall g, In g kept_upper' -> In g kept_upper).
Proof.
  intros Hl Hu Hk.
  destruct (get_sig_events_run num_consec threshold m lower upper Hl Hu)
    as (m1 & Hrun1 & Hlo1 & Hup1).
  destruct (get_sig_events_run num_consec' threshold m lower upper Hl Hu)
    as (m2 & Hrun2 & Hlo2 & Hup2).
  exists m1, m2, (sig_runs lower threshold num_consec),
         (sig_runs (neg upper) threshold num_consec),
         (sig_runs lower threshold num_consec'),
         (sig_runs (neg upper) threshold num_consec').
  repeat (split; [assumption|]).
  split; intros g; now apply sig_runs_antitone.
Qed.

Lemma get_sig_events_antitone_witness :
  exists m1, get_sig_events 0 0 (bounds_mem [1; 2; -1; 3] [2; 3; -2; -4])%R = (Ok tt, m1).
Proof.
  destruct (get_sig_events_antitone 0 1 0%R
              (bounds_mem [1; 2; -1; 3] [2; 3; -2; -4])%R
              [1; 2; -1; 3]%R [2; 3; -2; -4]%R)
    as (m1 & _ & _ & _ & _ & _ & Hrun & _); [reflexivity|reflexivity|lia|].
  exists m1. exact Hrun.
Defined.

(** X19.  With a threshold that is not negative and bounds that are
    ordered ([ci_lower[i] <= ci_upper[i]] wherever both exist), no index is
    reported under both "lower" and "upper". *)
Theorem get_sig_events_disjoint num_consec threshold m lower upper :
  ci_lower (self m) = Some lower ->
  ci_upper (self m) = Some upper ->
  (0 <= threshold)%R ->
  (forall i, i < length lower -> i < length upper ->
             (nth i lower 0 <= nth i upper 0)%R) ->
  exists m',
    get_sig_events num_consec threshold m = (Ok tt, m')
    /\ forall i, In i (reported m' "lower") -> ~ In i (reported m' "upper").
Proof.
  intros Hl Hu Ht Hord.
  destruct (get_sig_events_run num_consec threshold m lower upper Hl Hu)
    as (m' & Hrun & Hlo & Hup).
  exists m'. split; [assumption|]. unfold reported. rewrite Hlo, Hup.
  intros i Hi Hi'.
  apply in_concat in Hi as (g & Hg & Hi).
  apply in_concat in Hi' as (g' & Hg' & Hi').
  apply sig_runs_sound in Hg as (_ & _ & Hall).
  apply sig_runs_sound in Hg' as (_ & _ & Hall').
  destruct (Hall i Hi) as [Hp Hkey]. destruct (Hall' i Hi') as [Hp' Hkey'].
  rewrite neg_length in Hp'.
  unfold exceeds in Hkey, Hkey'. rewrite neg_nth in Hkey'.
  apply gtb_spec in Hkey, Hkey'. specialize (Hord i Hp Hp'). lra.
Qed.

Lemma get_sig_events_disjoint_witness :
  exists m', get_sig_events 0 0 (bounds_mem [1; 2; -1; -5] [2; 3; 2; -4])%R = (Ok tt, m').
Proof.
  destruct (get_sig_events_disjoint 0 0%R
              (bounds_mem [1; 2; -1; -5] [2; 3; 2; -4])%R
              [1; 2; -1; -5]%R [2; 3; 2; -4]%R)
    as (m' & Hrun & _); [reflexivity|reflexivity|lra|..].
  - intros i Hi _. simpl in Hi.
    destruct i as [|[|[|[|i]]]]; simpl; try lra; lia.
  - exists m'. exact Hrun.
Defined.

(** * The three stages in sequence *)

Section Pipeline.

Lemma construct_data df n_boots t : data (self (construct df n_boots t)) = df.
Proof.
  unfold construct, __init__, bind, set_self.
  destruct n_boots as [b|]; [|reflexivity].
  destruct (b =? 0)%Z; [reflexivity|].
  match goal with |- context [_bootstrap_resample b ?m0] =>
    destruct (resampled_state b m0) as (rows & rs & -> & _) end.
  reflexivity.
Qed.

End Pipeline.

(** X20.  On a constructed object with at least two rows, for a
    significance level in (0,1) and [n_boots >= 2], interval estimation
    followed by event detection returns normally for every [num_consec] and
    [threshold]; the detector leaves the bounds as estimated, and every
    index it reports is a column of the table. *)
Theorem pipeline_returns df n_boots0 t n_boots sig num_consec threshold :
  2 <= shape0 df ->
  (0 < sig)%Q -> (sig < 1)%Q -> (2 <= n_boots)%Z ->
  exists m1 m2,
    bootstrap_CI n_boots sig (construct df n_boots0 t) = (Ok tt, m1)
    /\ get_sig_events num_consec threshold m1 = (Ok tt, m2)
    /\ ci_lower (self m2) = ci_lower (self m1)
    /\ ci_upper (self m2) = ci_upper (self m1)
    /\ forall i, In i (reported m2 "lower") \/ In i (reported m2 "upper") ->
         i < columns df.
Proof.
  intros Hrows Hpos Hlt HB.
  set (m := construct df n_boots0 t).
  assert (Hdata : data (self m) = df) by apply construct_data.
  assert (Hinv : consistent m) by apply construct_consistent.
  destruct (raw_bounds_cases n_boots sig m Hpos)
    as (fresh & _ & _ & _ & [(Hlo & _ & Hnc & Hraw)|(Hout & _)]).
  2:{ exfalso. apply Hout. split.
      - pose proof (lower_CI_idx_pos n_boots sig ltac:(lia) Hpos). lia.
      - now apply lower_CI_idx_lt. }
  rewrite <- Hdata in Hrows.
  destruct (bootstrap_CI_adjusted n_boots sig m _ _ _ Hinv Hrows Hraw)
    as (m1 & lower' & upper' & Hrun & Hl & Hu & Hll & Hlu & _).
  unfold sorted_row in Hll, Hlu.
  rewrite length_map, length_seq, Hnc, Hdata in Hll, Hlu.
  destruct (get_sig_events_run num_consec threshold m1 lower' upper' Hl Hu)
    as (m2 & Hrun2 & Hlo2 & Hup2).
  exists m1, m2. split; [assumption|]. split; [assumption|].
  pose proof (get_sig_events_cases num_consec threshold m1) as Hcases.
  rewrite Hl, Hu, Hrun2 in Hcases. injection Hcases as ->.
  split; [reflexivity|]. split; [reflexivity|].
  unfold reported. simpl.
  rewrite lookup_insert_ne by discriminate. rewrite !lookup_insert_eq.
  intros i [Hi|Hi]; apply in_concat in Hi as (g & Hg & Hi);
    apply sig_runs_sound in Hg as (_ & _ & Hall);
    destruct (Hall i Hi) as [Hp _]; rewrite ?neg_length in Hp; lia.
Qed.

Lemma pipeline_returns_witness :
  exists m1 m2,
    bootstrap_CI 4 (1 # 20) (construct example_table (Some 3%Z) example_tape)
    = (Ok tt, m1)
    /\ get_sig_events 1 0 m1 = (Ok tt, m2).
Proof.
  destruct (pipeline_returns example_table (Some 3%Z) example_tape
              4 (1 # 20) 1 0%R)
    as (m1 & m2 & H1 & H2 & _).
  - vm_compute. lia.
  - reflexivity.
  - reflexivity.
  - lia.
  - exists m1, m2. split; assumption.
Defined.
